(** * Asteroids (game.py): the game loop, collisions and the state machine

    A shallow embedding of [src/game.py].  Only the simulation core is
    modelled; pygame's window, images, fonts and sounds are left out, and so
    is everything [draw] does besides the counter logic.

    Conventions of the embedding.
    - Python floats are modelled by exact rationals ([Q]).  The source
      compares [distance(p, q)], a square root, with a bound; over exact
      numbers [sqrt s < t] is [0 < t /\ s < t * t], which is how the
      comparisons are written here.  The rounding of floats is not
      modelled; the concrete sessions below use numbers that floats
      represent exactly, sums and products included.
    - Python objects have identity: [list.remove] and [in] compare rocks and
      missiles by identity (no [__eq__] is defined).  Every rock and missile
      carries the identifier it was allocated with.
    - A Python [for] loop over a list keeps an index into the live list, so
      the loops below run on an index over the current list, and see every
      removal and every append made by their own body.
    - [random] is an oracle: a stream [rnd] of raw integers, read at the
      position [seed] of the game.
    - [math.sin], [math.cos] and the size of the ship's image are parameters.
    - The clock is an input: a REFRESH event carries what
      [datetime.datetime.now()] returns, in microseconds.
    - The timers of pygame are two flags of the game, armed by [set_timer]
      with a delay and disarmed with 0; the events are an input.
    - The unbounded loops take [fuel]; [None] means the fuel ran out.
      [list.remove] is only called on an element the loop has just read from
      the list, so it always finds it. *)

From Stdlib Require Import ZArith QArith Lia Lqa.
From stdpp Require Import base option list relations.

Close Scope Q_scope.

(** ** Points and distances *)

Definition Point : Type := (Q * Q)%type.

Definition point_of_Z (x y : Z) : Point := (inject_Z x, inject_Z y).

(** [(p[0]-q[0])**2 + (p[1]-q[1])**2], the argument of the square root of
    [distance]. *)
Definition distance2 (p q : Point) : Q :=
  ((fst p - fst q) ^ 2 + (snd p - snd q) ^ 2)%Q.

Definition Qltb (x y : Q) : bool := negb (Qle_bool y x).

(** [distance(p, q) < t] *)
Definition distance_lt (p q : Point) (t : Q) : bool :=
  Qltb 0 t && Qltb (distance2 p q) (t * t).

(** [distance(p, q) > math.sqrt(s)], for [0 <= s] *)
Definition distance_gt_sqrt (p q : Point) (s : Q) : bool :=
  Qltb s (distance2 p q).

(** ** The objects of the game *)

Inductive Size : Type := big | normal | small.

Inductive State : Type := PLAYING | DYING | GAME_OVER | STARTING.

#[global] Instance Size_eq_dec : EqDecision Size.
Proof. solve_decision. Defined.

#[global] Instance State_eq_dec : EqDecision State.
Proof. solve_decision. Defined.

Record Missile : Type := {
  missile_id : nat;
  missile_position : Point;
  missile_angle : Z;
  missile_direction : Point;
  missile_speed : Q
}.

Record Rock : Type := {
  rock_id : nat;
  rock_position : Point;
  rock_size : Size;
  rock_speed : Q;
  rock_direction : Point
}.

Record Spaceship : Type := {
  position : Point;
  speed : Q;
  direction : Point;
  is_moving : bool;
  angle : Z;
  active_missiles : list Missile
}.

Record Game : Type := {
  rocks : list Rock;
  min_rock_distance : Q;
  spaceship : Spaceship;
  missiles : list Missile;
  state : State;
  lives : Z;
  score : Z;
  counter : Z;
  fire_time : Z;            (* microseconds *)
  start_timer : bool;       (* pygame timer of the START event is armed *)
  restart_timer : bool;     (* pygame timer of the RESTART event is armed *)
  seed : nat;               (* position in the stream of random numbers *)
  next_id : nat             (* identity of the next object created *)
}.

Definition width : Z := 800.
Definition height : Z := 600.
Definition FPS : Z := 30.

(** *** Field updates *)

Definition set_rocks (l : list Rock) (g : Game) : Game :=
  {| rocks := l; min_rock_distance := min_rock_distance g;
     spaceship := spaceship g; missiles := missiles g; state := state g;
     lives := lives g; score := score g; counter := counter g;
     fire_time := fire_time g; start_timer := start_timer g;
     restart_timer := restart_timer g; seed := seed g; next_id := next_id g |}.

Definition set_min_rock_distance (d : Q) (g : Game) : Game :=
  {| rocks := rocks g; min_rock_distance := d;
     spaceship := spaceship g; missiles := missiles g; state := state g;
     lives := lives g; score := score g; counter := counter g;
     fire_time := fire_time g; start_timer := start_timer g;
     restart_timer := restart_timer g; seed := seed g; next_id := next_id g |}.

Definition set_spaceship (s : Spaceship) (g : Game) : Game :=
  {| rocks := rocks g; min_rock_distance := min_rock_distance g;
     spaceship := s; missiles := missiles g; state := state g;
     lives := lives g; score := score g; counter := counter g;
     fire_time := fire_time g; start_timer := start_timer g;
     restart_timer := restart_timer g; seed := seed g; next_id := next_id g |}.

Definition set_missiles (l : list Missile) (g : Game) : Game :=
  {| rocks := rocks g; min_rock_distance := min_rock_distance g;
     spaceship := spaceship g; missiles := l; state := state g;
     lives := lives g; score := score g; counter := counter g;
     fire_time := fire_time g; start_timer := start_timer g;
     restart_timer := restart_timer g; seed := seed g; next_id := next_id g |}.

Definition set_state (s : State) (g : Game) : Game :=
  {| rocks := rocks g; min_rock_distance := min_rock_distance g;
     spaceship := spaceship g; missiles := missiles g; state := s;
     lives := lives g; score := score g; counter := counter g;
     fire_time := fire_time g; start_timer := start_timer g;
     restart_timer := restart_timer g; seed := seed g; next_id := next_id g |}.

Definition set_lives (n : Z) (g : Game) : Game :=
  {| rocks := rocks g; min_rock_distance := min_rock_distance g;
     spaceship := spaceship g; missiles := missiles g; state := state g;
     lives := n; score := score g; counter := counter g;
     fire_time := fire_time g; start_timer := start_timer g;
     restart_timer := restart_timer g; seed := seed g; next_id := next_id g |}.

Definition set_score (n : Z) (g : Game) : Game :=
  {| rocks := rocks g; min_rock_distance := min_rock_distance g;
     spaceship := spaceship g; missiles := missiles g; state := state g;
     lives := lives g; score := n; counter := counter g;
     fire_time := fire_time g; start_timer := start_timer g;
     restart_timer := restart_timer g; seed := seed g; next_id := next_id g |}.

Definition set_counter (n : Z) (g : Game) : Game :=
  {| rocks := rocks g; min_rock_distance := min_rock_distance g;
     spaceship := spaceship g; missiles := missiles g; state := state g;
     lives := lives g; score := score g; counter := n;
     fire_time := fire_time g; start_timer := start_timer g;
     restart_timer := restart_timer g; seed := seed g; next_id := next_id g |}.

Definition set_fire_time (t : Z) (g : Game) : Game :=
  {| rocks := rocks g; min_rock_distance := min_rock_distance g;
     spaceship := spaceship g; missiles := missiles g; state := state g;
     lives := lives g; score := score g; counter := counter g;
     fire_time := t; start_timer := start_timer g;
     restart_timer := restart_timer g; seed := seed g; next_id := next_id g |}.

Definition set_start_timer (b : bool) (g : Game) : Game :=
  {| rocks := rocks g; min_rock_distance := min_rock_distance g;
     spaceship := spaceship g; missiles := missiles g; state := state g;
     lives := lives g; score := score g; counter := counter g;
     fire_time := fire_time g; start_timer := b;
     restart_timer := restart_timer g; seed := seed g; next_id := next_id g |}.

Definition set_restart_timer (b : bool) (g : Game) : Game :=
  {| rocks := rocks g; min_rock_distance := min_rock_distance g;
     spaceship := spaceship g; missiles := missiles g; state := state g;
     lives := lives g; score := score g; counter := counter g;
     fire_time := fire_time g; start_timer := start_timer g;
     restart_timer := b; seed := seed g; next_id := next_id g |}.

Definition set_seed (n : nat) (g : Game) : Game :=
  {| rocks := rocks g; min_rock_distance := min_rock_distance g;
     spaceship := spaceship g; missiles := missiles g; state := state g;
     lives := lives g; score := score g; counter := counter g;
     fire_time := fire_time g; start_timer := start_timer g;
     restart_timer := restart_timer g; seed := n; next_id := next_id g |}.

Definition set_next_id (n : nat) (g : Game) : Game :=
  {| rocks := rocks g; min_rock_distance := min_rock_distance g;
     spaceship := spaceship g; missiles := missiles g; state := state g;
     lives := lives g; score := score g; counter := counter g;
     fire_time := fire_time g; start_timer := start_timer g;
     restart_timer := restart_timer g; seed := seed g; next_id := n |}.

Definition set_position (p : Point) (s : Spaceship) : Spaceship :=
  {| position := p; speed := speed s; direction := direction s;
     is_moving := is_moving s; angle := angle s;
     active_missiles := active_missiles s |}.

Definition set_direction (d : Point) (s : Spaceship) : Spaceship :=
  {| position := position s; speed := speed s; direction := d;
     is_moving := is_moving s; angle := angle s;
     active_missiles := active_missiles s |}.

Definition set_is_moving (b : bool) (s : Spaceship) : Spaceship :=
  {| position := position s; speed := speed s; direction := direction s;
     is_moving := b; angle := angle s;
     active_missiles := active_missiles s |}.

Definition set_angle (a : Z) (s : Spaceship) : Spaceship :=
  {| position := position s; speed := speed s; direction := direction s;
     is_moving := is_moving s; angle := a;
     active_missiles := active_missiles s |}.

Definition set_active_missiles (l : list Missile) (s : Spaceship) : Spaceship :=
  {| position := position s; speed := speed s; direction := direction s;
     is_moving := is_moving s; angle := angle s;
     active_missiles := l |}.

(** ** Identity: [list.remove(x)] and [x in list] *)

Fixpoint remove_rock (r : Rock) (l : list Rock) : list Rock :=
  match l with
  | [] => []
  | x :: l' =>
      if Nat.eqb (rock_id x) (rock_id r) then l' else x :: remove_rock r l'
  end.

Fixpoint remove_missile (m : Missile) (l : list Missile) : list Missile :=
  match l with
  | [] => []
  | x :: l' =>
      if Nat.eqb (missile_id x) (missile_id m) then l'
      else x :: remove_missile m l'
  end.

Definition missile_in (m : Missile) (l : list Missile) : bool :=
  existsb (fun x => Nat.eqb (missile_id x) (missile_id m)) l.

(** ** Input *)

Record Keys : Type := {
  K_SPACE : bool;
  K_RIGHT : bool; K_d : bool;
  K_LEFT : bool; K_a : bool;
  K_UP : bool; K_w : bool
}.

Inductive Event : Type :=
  | QUIT
  | REFRESH (keys : Keys) (now : Z)   (* [now]: the clock, in microseconds *)
  | START
  | RESTART
  | MOUSEBUTTONDOWN
  | OTHER.

(** ** The program *)

Section Program.

(** The stream of raw random integers behind Python's [random]. *)
Context (rnd : nat -> Z).
(** [math.sin(-math.radians(a))] and [-math.cos(math.radians(a))]. *)
Context (sin_neg_radians neg_cos_radians : Z -> Q).
(** [get_width()] and [get_height()] of the image of the spaceship. *)
Context (image_width image_height : Q).
(** What every unbounded loop may use. *)
Context (fuel : nat).

(** *** [random] *)

(** [random.randint(lo, hi)]: an integer of [lo..hi]. *)
Definition randint (lo hi : Z) (n : nat) : Z :=
  (lo + rnd n mod (hi - lo + 1))%Z.

(** [bool(random.getrandbits(1))] *)
Definition getrandbits1 (n : nat) : bool := Z.odd (rnd n).

(** [random.random()]: a multiple of [2^-53] in [[0, 1)], written in
    lowest terms. *)
Definition random (n : nat) : Q :=
  Qred (Qmake (rnd n mod 2 ^ 53) (2 ^ 53)).

(** *** Rock *)

(** [Rock.__init__]; reads four random numbers from position [n] on. *)
Definition Rock_init (id : nat) (pos : Z * Z) (size : Size) (n : nat) : Rock :=
  let rand_x :=
    if getrandbits1 n then (random (n + 1) * -1)%Q else random (n + 1) in
  let rand_y :=
    if getrandbits1 (n + 2) then (random (n + 3) * -1)%Q
    else random (n + 3) in
  {| rock_id := id;
     rock_position := point_of_Z (fst pos) (snd pos);
     rock_size := size;
     rock_speed := 4;
     rock_direction := (rand_x, rand_y) |}.

Definition Rock_move (r : Rock) : Rock :=
  {| rock_id := rock_id r;
     rock_position :=
       (fst (rock_position r) + fst (rock_direction r) * rock_speed r,
        snd (rock_position r) + snd (rock_direction r) * rock_speed r)%Q;
     rock_size := rock_size r;
     rock_speed := rock_speed r;
     rock_direction := rock_direction r |}.

(** *** Missile *)

Definition Missile_init (id : nat) (pos : Point) (a : Z) : Missile :=
  {| missile_id := id;
     missile_position := pos;
     missile_angle := a;
     missile_direction := (0, 0)%Q;
     missile_speed := 15 |}.

Definition Missile_move (m : Missile) : Missile :=
  let d := (sin_neg_radians (missile_angle m),
            neg_cos_radians (missile_angle m)) in
  {| missile_id := missile_id m;
     missile_position :=
       (fst (missile_position m) + fst d * missile_speed m,
        snd (missile_position m) + snd d * missile_speed m)%Q;
     missile_angle := missile_angle m;
     missile_direction := d;
     missile_speed := missile_speed m |}.

(** *** Spaceship *)

Definition Spaceship_init (pos : Z * Z) : Spaceship :=
  {| position := point_of_Z (fst pos) (snd pos);
     speed := 4;
     direction := (0, -1)%Q;
     is_moving := false;
     angle := 0;
     active_missiles := [] |}.

Definition Spaceship_move (s : Spaceship) : Spaceship :=
  let d := (sin_neg_radians (angle s), neg_cos_radians (angle s)) in
  set_position
    (fst (position s) + fst d * speed s,
     snd (position s) + snd d * speed s)%Q
    (set_direction d s).

(** [Spaceship.fire]; [id] is the identity of the new missile. *)
Definition Spaceship_fire (id : nat) (s : Spaceship) : Spaceship :=
  let adjust :=
    (sin_neg_radians (angle s) * image_width,
     neg_cos_radians (angle s) * image_height)%Q in
  let new_missile :=
    Missile_init id
      (fst (position s) + fst adjust,
       snd (position s) + snd adjust / 2)%Q
      (angle s) in
  set_active_missiles (active_missiles s ++ [new_missile]) s.

(** *** MyGame.make_rock *)

(** The [while] loop of [make_rock]: [(x, y)] is the candidate, [s] the
    position in the random stream. *)
Fixpoint make_rock_while (n : nat) (ship : Point) (d : Q) (x y : Z) (s : nat)
  : option (Z * Z * nat) :=
  if distance_lt (point_of_Z x y) ship d then
    match n with
    | O => None
    | S n' =>
        make_rock_while n' ship d
          (randint 0 width s) (randint 0 height (S s)) (S (S s))
    end
  else Some (x, y, s).

Definition make_rock (size : Size) (g : Game) : option Game :=
  let margin := 200%Z in
  let rand_x := randint margin (width - margin) (seed g) in
  let rand_y := randint margin (height - margin) (S (seed g)) in
  '(x, y, s) ← make_rock_while fuel (position (spaceship g))
                 (min_rock_distance g) rand_x rand_y (S (S (seed g)));
  let temp_rock := Rock_init (next_id g) (x, y) size s in
  Some (set_rocks (rocks g ++ [temp_rock])
          (set_next_id (S (next_id g)) (set_seed (s + 4) g))).

(** [for i in range(k): self.make_rock()] *)
Fixpoint make_rocks (k : nat) (g : Game) : option Game :=
  match k with
  | O => Some g
  | S k' => g' ← make_rock big g; make_rocks k' g'
  end.

(** *** The state machine *)

Definition start (g : Game) : Game :=
  set_state PLAYING
    (set_missiles []
       (set_spaceship
          (Spaceship_init ((width / 2)%Z, (height / 2)%Z)) g)).

Definition do_init (g : Game) : option Game :=
  let g := set_rocks [] g in
  let g := set_min_rock_distance 350 g in
  let g := start g in
  g ← make_rocks 4 g;
  Some (set_counter 0 (set_score 0 (set_lives 3 g))).

Definition game_over (g : Game) : Game :=
  set_restart_timer true (set_state GAME_OVER g).

Definition die (g : Game) : Game :=
  set_start_timer true
    (set_state DYING (set_counter 0 (set_lives (lives g - 1) g))).

Definition physics (g : Game) : Game :=
  if decide (state g = PLAYING)
  then set_spaceship (Spaceship_move (spaceship g)) g
  else g.

(** *** MyGame.missiles_physics *)

(** [self.rocks.remove(rock)] followed by the guarded removal of the
    missile, the two statements every branch starts with. *)
Definition remove_hit (m : Missile) (rock : Rock) (g : Game) : Game :=
  let g := set_rocks (remove_rock rock (rocks g)) g in
  if missile_in m (active_missiles (spaceship g))
  then set_spaceship
         (set_active_missiles
            (remove_missile m (active_missiles (spaceship g)))
            (spaceship g)) g
  else g.

(** The body of [for rock in self.rocks]. *)
Definition missile_vs_rock (m : Missile) (rock : Rock) (g : Game)
  : option Game :=
  match rock_size rock with
  | big =>
      if distance_lt (missile_position m) (rock_position rock) 80 then
        let g := remove_hit m rock g in
        g ← make_rock normal g;
        g ← make_rock normal g;
        Some (set_score (score g + 20) g)
      else Some g
  | normal =>
      if distance_lt (missile_position m) (rock_position rock) 55 then
        let g := remove_hit m rock g in
        g ← make_rock small g;
        g ← make_rock small g;
        Some (set_score (score g + 50) g)
      else Some g
  | small =>
      if distance_lt (missile_position m) (rock_position rock) 30 then
        let g := remove_hit m rock g in
        g ← make_rock big g;
        Some (set_score (score g + 100) g)
      else Some g
  end.

(** [for rock in self.rocks], at index [j] of the live list. *)
Fixpoint for_rock_vs_missile (n : nat) (m : Missile) (j : nat) (g : Game)
  : option Game :=
  match rocks g !! j with
  | None => Some g
  | Some rock =>
      match n with
      | O => None
      | S n' =>
          g' ← missile_vs_rock m rock g;
          for_rock_vs_missile n' m (S j) g'
      end
  end.

(** [for missile in self.spaceship.active_missiles], at index [i] of the
    live list; [missile.move()] changes the object in the list. *)
Fixpoint for_missile (n : nat) (i : nat) (g : Game) : option Game :=
  match active_missiles (spaceship g) !! i with
  | None => Some g
  | Some missile =>
      match n with
      | O => None
      | S n' =>
          let missile := Missile_move missile in
          let g :=
            set_spaceship
              (set_active_missiles
                 (<[i := missile]> (active_missiles (spaceship g)))
                 (spaceship g)) g in
          g' ← for_rock_vs_missile fuel missile 0 g;
          for_missile n' (S i) g'
      end
  end.

Definition missiles_physics (g : Game) : option Game :=
  if (0 <? length (active_missiles (spaceship g)))%nat
  then for_missile fuel 0 g
  else Some g.

(** *** MyGame.rocks_physics *)

(** The body of [for rock in self.rocks]; [rock] is at index [i]. *)
Definition rock_step (i : nat) (rock : Rock) (g : Game) : option Game :=
  let rock := Rock_move rock in
  let g := set_rocks (<[i := rock]> (rocks g)) g in
  if distance_lt (rock_position rock) (position (spaceship g)) 90 then
    Some (die g)
  else if distance_gt_sqrt (rock_position rock)
            (inject_Z width / 2, inject_Z height / 2)%Q
            ((inject_Z width / 2) ^ 2 + (inject_Z height / 2) ^ 2)%Q then
    make_rock big (set_rocks (remove_rock rock (rocks g)) g)
  else Some g.

Fixpoint for_rock (n : nat) (i : nat) (g : Game) : option Game :=
  match rocks g !! i with
  | None => Some g
  | Some rock =>
      match n with
      | O => None
      | S n' => g' ← rock_step i rock g; for_rock n' (S i) g'
      end
  end.

Definition rocks_physics (g : Game) : option Game :=
  if (0 <? length (rocks g))%nat then for_rock fuel 0 g else Some g.

(** *** MyGame.draw: the counter *)

Definition draw (g : Game) : option Game :=
  if decide (state g = PLAYING) then
    let g := set_counter (counter g + 1) g in
    if (counter g =? 30 * FPS)%Z then
      if (length (rocks g) <? 10)%nat then
        g ← make_rock big g;
        Some (set_counter 0 g)
      else Some g
    else Some g
  else Some g.

(** *** MyGame.run *)

(** The fire check of a REFRESH event; [timedelta(seconds=0.15)] is
    150000 microseconds. *)
Definition fire_check (keys : Keys) (now : Z) (g : Game) : Game :=
  if K_SPACE keys then
    let new_time := now in
    if (150000 <? new_time - fire_time g)%Z then
      set_fire_time new_time
        (set_next_id (S (next_id g))
           (set_spaceship (Spaceship_fire (next_id g) (spaceship g)) g))
    else g
  else g.

Definition turn (delta : Z) (g : Game) : Game :=
  set_spaceship
    (set_angle ((angle (spaceship g) + delta) mod 360)%Z (spaceship g)) g.

(** The steering and thrust keys of a REFRESH event in PLAYING. *)
Definition steer (keys : Keys) (g : Game) : Game :=
  let g := if K_RIGHT keys || K_d keys then turn (-10) g else g in
  let g := if K_LEFT keys || K_a keys then turn 10 g else g in
  if K_UP keys || K_w keys then
    let g := physics g in
    set_spaceship (set_is_moving true (spaceship g)) g
  else set_spaceship (set_is_moving false (spaceship g)) g.

(** What a REFRESH event does while the state is PLAYING. *)
Definition playing_tick (keys : Keys) (g : Game) : option Game :=
  let g := steer keys g in
  g ← (if (0 <? length (active_missiles (spaceship g)))%nat
       then missiles_physics g else Some g);
  if (0 <? length (rocks g))%nat then rocks_physics g else Some g.

Definition refresh (keys : Keys) (now : Z) (g : Game) : option Game :=
  let g := fire_check keys now g in
  g ← (if decide (state g = PLAYING) then playing_tick keys g else Some g);
  draw g.

(** One turn of the loop of [run], for an event other than QUIT. *)
Definition handle_event (e : Event) (g : Game) : option Game :=
  match e with
  | QUIT => Some g
  | REFRESH keys now => refresh keys now g
  | START =>
      let g := set_start_timer false g in
      if (lives g <? 1)%Z then Some (game_over g)
      else
        g ← make_rocks 4 (set_rocks [] g);
        Some (start g)
  | RESTART => Some (set_state STARTING (set_restart_timer false g))
  | MOUSEBUTTONDOWN =>
      if decide (state g = STARTING) then do_init g else Some g
  | OTHER => Some g
  end.

(** [run] on the events the queue delivers; QUIT ends the loop. *)
Fixpoint run (events : list Event) (g : Game) : option Game :=
  match events with
  | [] => Some g
  | QUIT :: _ => Some g
  | e :: events' => g' ← handle_event e g; run events' g'
  end.

(** [MyGame.__init__] at time [now].  The fields that [do_init] sets are
    absent before it runs; the record gives them values that are never
    read. *)
Definition MyGame_init (now : Z) : option Game :=
  let g :=
    {| rocks := []; min_rock_distance := 350;
       spaceship := Spaceship_init ((width / 2)%Z, (height / 2)%Z);
       missiles := []; state := PLAYING;
       lives := 3; score := 0; counter := 0; fire_time := now;
       start_timer := false; restart_timer := false;
       seed := 0; next_id := 0 |} in
  g ← do_init g;
  Some (set_fire_time now g).

End Program.

(** * The vocabulary of the statements *)

(** The constants of the three branches of [missiles_physics]: the distance
    below which a rock of a size is hit, what a hit scores, and the sizes of
    the rocks [make_rock] is called for after the hit. *)
Definition hit_radius (s : Size) : Q :=
  match s with big => 80 | normal => 55 | small => 30 end.

Definition score_value (s : Size) : Z :=
  match s with big => 20 | normal => 50 | small => 100 end.

Definition children (s : Size) : list Size :=
  match s with
  | big => [normal; normal]
  | normal => [small; small]
  | small => [big]
  end.

Definition hits (m : Missile) (r : Rock) : bool :=
  distance_lt (missile_position m) (rock_position r) (hit_radius (rock_size r)).

(** What leaves everything but the rocks, the random stream and the next
    identity as it was. *)
Definition same_but_rocks (g g' : Game) : Prop :=
  min_rock_distance g' = min_rock_distance g /\
  spaceship g' = spaceship g /\ missiles g' = missiles g /\
  state g' = state g /\ lives g' = lives g /\ score g' = score g /\
  counter g' = counter g /\ fire_time g' = fire_time g /\
  start_timer g' = start_timer g /\ restart_timer g' = restart_timer g.


(** What leaves the state machine, and where the ship is, as it was. *)
Definition same_control (g g' : Game) : Prop :=
  min_rock_distance g' = min_rock_distance g /\
  state g' = state g /\ lives g' = lives g /\ counter g' = counter g /\
  start_timer g' = start_timer g /\ restart_timer g' = restart_timer g /\
  position (spaceship g') = position (spaceship g).

Definition arena_centre : Point :=
  (inject_Z width / 2, inject_Z height / 2)%Q.

(** The square of the radius of the circle around the arena. *)
Definition arena_radius2 : Q :=
  ((inject_Z width / 2) ^ 2 + (inject_Z height / 2) ^ 2)%Q.

Definition touches_ship (r : Rock) (g : Game) : bool :=
  distance_lt (rock_position r) (position (spaceship g)) 90.

Definition leaves_arena (r : Rock) : bool :=
  distance_gt_sqrt (rock_position r) arena_centre arena_radius2.

(** What a pass of [rocks_physics] may do to the game besides moving and
    replacing rocks: nothing, or a death. *)
Definition rocks_pass (g g' : Game) : Prop :=
  spaceship g' = spaceship g /\
  min_rock_distance g' = min_rock_distance g /\
  missiles g' = missiles g /\ score g' = score g /\
  fire_time g' = fire_time g /\ restart_timer g' = restart_timer g /\
  (length (rocks g) <= length (rocks g'))%nat /\
  ((state g' = state g /\ counter g' = counter g /\
    start_timer g' = start_timer g /\ lives g' = lives g) \/
   (state g' = DYING /\ counter g' = 0%Z /\ start_timer g' = true /\
    (lives g' < lives g)%Z)).

(** The timers are armed only where the state machine waits for them. *)
Definition timers_ok (g : Game) : Prop :=
  (start_timer g = true -> state g = DYING /\ counter g = 0%Z) /\
  (restart_timer g = true -> state g = GAME_OVER).

(** pygame delivers the event of a timer only while the timer is armed. *)
Definition deliverable (e : Event) (g : Game) : Prop :=
  match e with
  | START => start_timer g = true
  | RESTART => restart_timer g = true
  | _ => True
  end.

Section Vocabulary.

Context (rnd : nat -> Z) (sin_neg_radians neg_cos_radians : Z -> Q).
Context (image_width image_height : Q).

(** The candidate drawn at position [s] of the random stream by the loop
    of [make_rock] is not closer than [d] to [ship]. *)
Definition far_sample (ship : Point) (d : Q) (s : nat) : Prop :=
  distance_lt
    (point_of_Z (randint rnd 0 width s) (randint rnd 0 height (S s)))
    ship d = false.

(** Every position from which the loop may start is followed by a
    candidate that is far enough. *)
Definition eventually_far (ship : Point) (d : Q) : Prop :=
  forall s, exists k, far_sample ship d (s + 2 * k).

(** [make_rock] for each size of a list, in order. *)
Fixpoint spawn (fuel : nat) (l : list Size) (g : Game) : option Game :=
  match l with
  | [] => Some g
  | s :: l' => g' ← make_rock rnd fuel s g; spawn fuel l' g'
  end.

(** The states a session goes through: [MyGame.__init__], then the
    events that pygame delivers. *)
Inductive reachable : Game -> Prop :=
  | reachable_init fuel now g :
      MyGame_init rnd fuel now = Some g -> reachable g
  | reachable_event fuel e g g' :
      reachable g -> deliverable e g ->
      handle_event rnd sin_neg_radians neg_cos_radians
        image_width image_height fuel e g = Some g' -> reachable g'.

End Vocabulary.

(** ** The invariants of a session *)

(** The rock is at a point of the window, corners included, with whole
    coordinates. *)
Definition in_window (r : Rock) : Prop :=
  exists x y : Z,
    rock_position r = point_of_Z x y /\
    (0 <= x <= width)%Z /\ (0 <= y <= height)%Z.

(** How [make_rock] places a rock while the ship is at [ship]: inside the
    window and the circle around it, not closer than [d] to the ship, with
    the speed 4 and a direction of less than 1 along each axis. *)
Definition placed (ship : Point) (d : Q) (r : Rock) : Prop :=
  rock_speed r = 4%Q /\
  in_window r /\ leaves_arena r = false /\
  distance_lt (rock_position r) ship d = false /\
  (-1 < fst (rock_direction r))%Q /\ (fst (rock_direction r) < 1)%Q /\
  (-1 < snd (rock_direction r))%Q /\ (snd (rock_direction r) < 1)%Q.

(** A rock made before the identity [n], with the speed and the kind of
    direction [Rock.__init__] gives. *)
Definition rock_ok (n : nat) (r : Rock) : Prop :=
  (rock_id r < n)%nat /\ rock_speed r = 4%Q /\
  (-1 < fst (rock_direction r))%Q /\ (fst (rock_direction r) < 1)%Q /\
  (-1 < snd (rock_direction r))%Q /\ (snd (rock_direction r) < 1)%Q.

(** A missile made before the identity [n], with the speed of
    [Missile.__init__]. *)
Definition missile_ok (n : nat) (m : Missile) : Prop :=
  (missile_id m < n)%nat /\ missile_speed m = 15%Q.

(** The rocks and the missiles of a game are distinct objects, older than
    the next identity, with the speeds they were made with. *)
Definition objects_ok (g : Game) : Prop :=
  NoDup (rock_id <$> rocks g) /\
  Forall (rock_ok (next_id g)) (rocks g) /\
  NoDup (missile_id <$> active_missiles (spaceship g)) /\
  Forall (missile_ok (next_id g)) (active_missiles (spaceship g)).

(** The heading is a number of degrees of one turn; the speed of the ship
    and the distance kept from it are those of the source. *)
Definition ship_ok (g : Game) : Prop :=
  (0 <= angle (spaceship g) < 360)%Z /\
  speed (spaceship g) = 4%Q /\ min_rock_distance g = 350%Q.

(** The lives go with the state: one at least while playing, none left
    once the game is over. *)
Definition lives_ok (g : Game) : Prop :=
  (lives g <= 3)%Z /\
  (state g = PLAYING -> (1 <= lives g)%Z) /\
  (state g = GAME_OVER \/ state g = STARTING -> (lives g < 1)%Z).

(** The counter passes [30 * FPS] only with ten rocks or more. *)
Definition counter_ok (g : Game) : Prop :=
  (0 <= counter g)%Z /\
  ((30 * FPS <= counter g)%Z -> (10 <= length (rocks g))%nat).

(** What every state of a session satisfies. *)
Definition session_ok (g : Game) : Prop :=
  objects_ok g /\ ship_ok g /\ lives_ok g /\ counter_ok g /\
  (0 <= score g)%Z.

Section Steps.
Context (rnd : nat -> Z) (sin_neg_radians neg_cos_radians : Z -> Q).
Context (image_width image_height : Q).

(** The assignments a REFRESH event is made of: whatever the event does
    is a sequence of these. *)
Inductive tick_step : Game -> Game -> Prop :=
  | step_fire_check keys now g :
      tick_step g
        (fire_check sin_neg_radians neg_cos_radians image_width image_height
           keys now g)
  | step_steer keys g :
      tick_step g (steer sin_neg_radians neg_cos_radians keys g)
  | step_missile_move i m g :
      active_missiles (spaceship g) !! i = Some m ->
      tick_step g
        (set_spaceship
           (set_active_missiles
              (<[i := Missile_move sin_neg_radians neg_cos_radians m]>
                 (active_missiles (spaceship g)))
              (spaceship g)) g)
  | step_remove_hit m rock g :
      tick_step g (remove_hit m rock g)
  | step_make_rock fuel size g g' :
      make_rock rnd fuel size g = Some g' -> tick_step g g'
  | step_score size g :
      tick_step g (set_score (score g + score_value size) g)
  | step_rock_move i rock g :
      rocks g !! i = Some rock ->
      tick_step g (set_rocks (<[i := Rock_move rock]> (rocks g)) g)
  | step_die g :
      tick_step g (die g)
  | step_rock_remove rock g :
      tick_step g (set_rocks (remove_rock rock (rocks g)) g)
  | step_counter n g :
      tick_step g (set_counter n g).

End Steps.

(** * Concrete sessions *)

(** The random stream that reads [l] and then zeros. *)
Definition stream (l : list Z) (n : nat) : Z := nth n l 0%Z.

(** No session below turns the ship: the heading stays 0, where
    [sin(-0) = 0] and [-cos(0) = -1] exactly.  The values at the other
    headings are never used. *)
Definition sin_neg_radians_0 (a : Z) : Q := 0.
Definition neg_cos_radians_0 (a : Z) : Q := (-1)%Q.

(** The image of the ship is taken to be 40 by 40. *)
Definition image_size : Q := 40.

Definition no_keys : Keys :=
  {| K_SPACE := false; K_RIGHT := false; K_d := false;
     K_LEFT := false; K_a := false; K_UP := false; K_w := false |}.

Definition space_key : Keys :=
  {| K_SPACE := true; K_RIGHT := false; K_d := false;
     K_LEFT := false; K_a := false; K_UP := false; K_w := false |}.

(** The raw number for which [random.random()] is 0.75. *)
Definition three_quarters : Z := (3 * 2 ^ 51)%Z.

(** The eight random numbers of one [make_rock] while the ship is at the
    centre: a first candidate, (200, 200), which is too close; the second
    candidate [(x, y)]; then the direction [(dx, 0)] of the rock, with [dx]
    the number of [fx], negated when [bx] is 1. *)
Definition rock_draws (x y bx fx : Z) : list Z :=
  [0; 0; x; y; bx; fx; 0; 0]%Z.

(** [n] REFRESH events with no key pressed. *)
Definition ticks (n : nat) : list Event := replicate n (REFRESH no_keys 0).

(** A session: [MyGame.__init__] at time 0, then [events]. *)
Definition session (rnd : nat -> Z) (events : list Event) : option Game :=
  g ← MyGame_init rnd 10 0;
  run rnd sin_neg_radians_0 neg_cos_radians_0 image_size image_size 10
    events g.

(** Two rocks start left and right of the ship, 350 away, and drift towards
    it by 3 a tick; two rocks stay where they are. *)
Definition rnd_two : nat -> Z :=
  stream (rock_draws 50 300 0 three_quarters ++
          rock_draws 750 300 1 three_quarters ++
          rock_draws 50 300 0 0 ++ rock_draws 50 300 0 0).

(** The four rocks drift towards the ship, two from each side. *)
Definition rnd_four : nat -> Z :=
  stream (rock_draws 50 300 0 three_quarters ++
          rock_draws 750 300 1 three_quarters ++
          rock_draws 50 300 0 three_quarters ++
          rock_draws 750 300 1 three_quarters).

(** Two rocks start at (219, 0) and drift to the right together, passing
    above the ship; two rocks stay at (50, 300), where the two rocks made
    after the first hit also are. *)
Definition rnd_pair : nat -> Z :=
  stream (rock_draws 219 0 0 three_quarters ++
          rock_draws 219 0 0 three_quarters ++
          rock_draws 50 300 0 0 ++ rock_draws 50 300 0 0 ++
          rock_draws 50 300 0 0 ++ rock_draws 50 300 0 0).

(** 39 idle ticks, one shot, 12 idle ticks: the next move of the missile
    brings it within 80 of the two drifting rocks. *)
Definition events_pair : list Event :=
  ticks 39 ++ [REFRESH space_key 1000000] ++ ticks 12.

(** For every rock, whether a missile of the game, once moved, hits it. *)
Definition in_reach (g : Game) : list bool :=
  map (fun r =>
         existsb
           (fun m =>
              hits (Missile_move sin_neg_radians_0 neg_cos_radians_0 m) r)
           (active_missiles (spaceship g)))
      (rocks g).

(** How many rocks, once moved, are within 90 of the ship. *)
Definition touching (g : Game) : nat :=
  length (filter (fun r => touches_ship (Rock_move r) g = true) (rocks g)).

Definition ship_at_centre : Spaceship :=
  {| position := (400, 300)%Q; speed := 4; direction := (0, -1)%Q;
     is_moving := false; angle := 0; active_missiles := [] |}.

Definition a_missile : Missile :=
  {| missile_id := 8; missile_position := (400, 130)%Q; missile_angle := 0;
     missile_direction := (0, -1)%Q; missile_speed := 15 |}.

Definition a_small_rock : Rock :=
  {| rock_id := 7; rock_position := (400, 100)%Q; rock_size := small;
     rock_speed := 4; rock_direction := (0, 0)%Q |}.

(** One missile, which its next move takes to (400, 115), and one small
    rock at (400, 100). *)
Definition game_small_rock : Game :=
  {| rocks := [a_small_rock];
     min_rock_distance := 350;
     spaceship := set_active_missiles [a_missile] ship_at_centre;
     missiles := []; state := PLAYING;
     lives := 3; score := 0; counter := 5; fire_time := 0;
     start_timer := false; restart_timer := false;
     seed := 0; next_id := 9 |}.

Definition a_leaving_rock : Rock :=
  {| rock_id := 7; rock_position := (905, 300)%Q; rock_size := small;
     rock_speed := 4; rock_direction := (3 # 4, 0)%Q |}.

(** One small rock, which its next move takes to (908, 300), 508 away from
    the centre of the arena; no missile. *)
Definition game_leaving_rock : Game :=
  {| rocks := [a_leaving_rock];
     min_rock_distance := 350;
     spaceship := ship_at_centre;
     missiles := []; state := PLAYING;
     lives := 3; score := 0; counter := 5; fire_time := 0;
     start_timer := false; restart_timer := false;
     seed := 0; next_id := 8 |}.

(** The game that [MyGame.__init__] makes from the stream [rnd_two]. *)
Definition game_new : Game :=
  default game_leaving_rock (MyGame_init rnd_two 10 0).

Definition a_far_missile : Missile :=
  {| missile_id := 8; missile_position := (400, 290)%Q; missile_angle := 0;
     missile_direction := (0, -1)%Q; missile_speed := 15 |}.

(** One missile, which its next move takes to (400, 275), far from the
    small rock at (400, 100). *)
Definition game_far_missile : Game :=
  set_spaceship (set_active_missiles [a_far_missile] ship_at_centre)
    game_small_rock.

(** [game_far_missile] one tick later, no key pressed. *)
Definition game_far_missile_next : Game :=
  default game_far_missile
    (refresh (stream []) sin_neg_radians_0 neg_cos_radians_0
       image_size image_size 10 no_keys 0 game_far_missile).

(** [rnd_two] after 86 idle ticks: the two drifting rocks are 92 away. *)
Definition game_two : Game :=
  default game_new (session rnd_two (ticks 86)).

(** [rnd_four] after 86 idle ticks: the four rocks are 92 away. *)
Definition game_four : Game :=
  default game_new (session rnd_four (ticks 86)).

(** [rnd_pair] after [events_pair]: the missile is at (400, 85) and the two
    drifting rocks are at (375, 0). *)
Definition game_pair : Game :=
  default game_new (session rnd_pair events_pair).

Definition is_REFRESH (e : Event) : bool :=
  match e with REFRESH _ _ => true | _ => false end.

(** [game_leaving_rock] with one more rock from [make_rock]. *)
Definition game_one_more_rock : Game :=
  default game_leaving_rock
    (make_rock (stream []) 10 big game_leaving_rock).

(** [game_leaving_rock] after a pass of [rocks_physics]. *)
Definition game_leaving_rock_next : Game :=
  default game_leaving_rock (rocks_physics (stream []) 10 game_leaving_rock).

(** A key of each direction pressed. *)
Definition both_turn_keys : Keys :=
  {| K_SPACE := false; K_RIGHT := true; K_d := false;
     K_LEFT := false; K_a := true; K_UP := false; K_w := false |}.

(** [game_new] one idle tick later. *)
Definition game_new_next : Game :=
  default game_new
    (handle_event rnd_two sin_neg_radians_0 neg_cos_radians_0
       image_size image_size 10 (REFRESH no_keys 0) game_new).






(** * Properties *)

(** ** Comparisons of rationals *)

Lemma Qltb_lt (x y : Q) : Qltb x y = true <-> (x < y)%Q.
Proof.
  unfold Qltb. rewrite negb_true_iff, <- not_true_iff_false, Qle_bool_iff.
  split; [apply Qnot_le_lt | apply Qlt_not_le].
Qed.

Lemma Qltb_ge (x y : Q) : Qltb x y = false <-> (y <= x)%Q.
Proof.
  unfold Qltb. rewrite negb_false_iff. apply Qle_bool_iff.
Qed.

(** A rock that is not closer than a positive [t] is at a squared distance
    of [t * t] or more. *)
Lemma distance_lt_false (p q : Point) (t : Q) :
  (0 < t)%Q -> distance_lt p q t = false -> (t * t <= distance2 p q)%Q.
Proof.
  unfold distance_lt. intros Ht H.
  apply andb_false_iff in H as [H | H].
  - apply Qltb_ge in H. exfalso. apply (Qlt_not_le _ _ Ht H).
  - now apply Qltb_ge.
Qed.

(** ** The fire check and the ticks outside PLAYING *)

Section Ticks.

Context (rnd : nat -> Z) (sin_neg_radians neg_cos_radians : Z -> Q).
Context (image_width image_height : Q).

#[local] Abbreviation fire_check' :=
  (fire_check sin_neg_radians neg_cos_radians image_width image_height).
#[local] Abbreviation refresh' :=
  (refresh rnd sin_neg_radians neg_cos_radians image_width image_height).
#[local] Abbreviation Spaceship_fire' :=
  (Spaceship_fire sin_neg_radians neg_cos_radians image_width image_height).

Lemma fire_check_fires keys now g :
  K_SPACE keys = true -> (150000 < now - fire_time g)%Z ->
  fire_check' keys now g =
    set_fire_time now
      (set_next_id (S (next_id g))
         (set_spaceship (Spaceship_fire' (next_id g) (spaceship g)) g)).
Proof.
  intros Hk Ht. unfold fire_check. rewrite Hk.
  apply Z.ltb_lt in Ht. now rewrite Ht.
Qed.

Lemma fire_check_holds keys now g :
  (now - fire_time g <= 150000)%Z -> fire_check' keys now g = g.
Proof.
  intros Ht. unfold fire_check.
  destruct (K_SPACE keys); [|reflexivity].
  apply Z.ltb_ge in Ht. now rewrite Ht.
Qed.

Lemma fire_check_idle keys now g :
  K_SPACE keys = false -> fire_check' keys now g = g.
Proof. intros Hk. unfold fire_check. now rewrite Hk. Qed.

(** What the fire check may change: the list of missiles (by one missile
    at its end), the time of the last shot and the next identity. *)
Lemma fire_check_frame keys now g :
  let g' := fire_check' keys now g in
  rocks g' = rocks g /\ min_rock_distance g' = min_rock_distance g /\
  missiles g' = missiles g /\ state g' = state g /\ lives g' = lives g /\
  score g' = score g /\ counter g' = counter g /\
  start_timer g' = start_timer g /\ restart_timer g' = restart_timer g /\
  seed g' = seed g /\
  position (spaceship g') = position (spaceship g) /\
  speed (spaceship g') = speed (spaceship g) /\
  direction (spaceship g') = direction (spaceship g) /\
  is_moving (spaceship g') = is_moving (spaceship g) /\
  angle (spaceship g') = angle (spaceship g).
Proof.
  unfold fire_check.
  destruct (K_SPACE keys); [|tauto].
  destruct (150000 <? now - fire_time g)%Z; cbn; tauto.
Qed.

Lemma fire_check_missiles keys now g :
  active_missiles (spaceship (fire_check' keys now g)) =
    active_missiles (spaceship g) \/
  exists m,
    active_missiles (spaceship (fire_check' keys now g)) =
      active_missiles (spaceship g) ++ [m].
Proof.
  unfold fire_check.
  destruct (K_SPACE keys); [|now left].
  destruct (150000 <? now - fire_time g)%Z; [|now left].
  right. cbn. eauto.
Qed.

Lemma refresh_not_playing fuel keys now g :
  state g <> PLAYING ->
  refresh' fuel keys now g = Some (fire_check' keys now g).
Proof.
  intros Hs. unfold refresh.
  destruct (fire_check_frame keys now g) as (_ & _ & _ & Hst & _).
  destruct (decide (state (fire_check' keys now g) = PLAYING)) as [E|_];
    [congruence|].
  cbn. unfold draw.
  destruct (decide (state (fire_check' keys now g) = PLAYING)) as [E|_];
    [congruence|reflexivity].
Qed.

(** C10.  A REFRESH event handled while the state is not PLAYING (DYING,
    GAME_OVER or STARTING) returns, and leaves the position and the heading
    of the ship, the rocks (so the position of every rock), the score, the
    lives, the counter and the state as they were; the list of active
    missiles is unchanged or has one new missile at its end, the only
    thing such a tick can do being the fire check. *)
Theorem refresh_outside_playing fuel keys now g :
  state g <> PLAYING ->
  exists g',
    refresh rnd sin_neg_radians neg_cos_radians image_width image_height
      fuel keys now g = Some g' /\
    g' = fire_check sin_neg_radians neg_cos_radians image_width image_height
           keys now g /\
    position (spaceship g') = position (spaceship g) /\
    angle (spaceship g') = angle (spaceship g) /\
    rocks g' = rocks g /\
    score g' = score g /\ lives g' = lives g /\
    counter g' = counter g /\ state g' = state g /\
    (active_missiles (spaceship g') = active_missiles (spaceship g) \/
     exists m, active_missiles (spaceship g') =
                 active_missiles (spaceship g) ++ [m]).
Proof.
  intros Hs. exists (fire_check' keys now g).
  split; [now apply refresh_not_playing|].
  split; [reflexivity|].
  pose proof (fire_check_frame keys now g) as F. cbn in F.
  pose proof (fire_check_missiles keys now g) as M.
  intuition.
Qed.

(** C7, as the code has it.  Two fire actions at the times [t1] and [t2],
    the first of which creates a missile: the second one creates a missile
    when it comes strictly more than 0.15 seconds (150000 microseconds)
    after the first, and creates none when it comes 0.15 seconds or less
    after it. *)
Theorem fire_rate_limit keys1 keys2 t1 t2 g :
  K_SPACE keys1 = true -> K_SPACE keys2 = true ->
  (150000 < t1 - fire_time g)%Z ->
  let n := length (active_missiles (spaceship g)) in
  let g2 :=
    fire_check sin_neg_radians neg_cos_radians image_width image_height
      keys2 t2
      (fire_check sin_neg_radians neg_cos_radians image_width image_height
         keys1 t1 g) in
  length (active_missiles (spaceship g2)) =
    if (150000 <? t2 - t1)%Z then (n + 2)%nat else (n + 1)%nat.
Proof.
  intros H1 H2 Ht n g2. subst n g2.
  rewrite (fire_check_fires keys1 t1 g H1 Ht).
  destruct (150000 <? t2 - t1)%Z eqn:E.
  - apply Z.ltb_lt in E. rewrite fire_check_fires; [|assumption|assumption].
    cbn. rewrite !length_app. cbn. lia.
  - apply Z.ltb_ge in E. rewrite fire_check_holds; [|assumption].
    cbn. rewrite length_app. cbn. lia.
Qed.

End Ticks.

(** ** The factory: [make_rock] *)

Section Factory.

Context (rnd : nat -> Z).

Lemma make_rock_while_far n ship d : forall x y s x' y' s',
  make_rock_while rnd n ship d x y s = Some (x', y', s') ->
  distance_lt (point_of_Z x' y') ship d = false.
Proof.
  induction n as [|n IH]; intros x y s x' y' s'; cbn;
    destruct (distance_lt (point_of_Z x y) ship d) eqn:E;
    try discriminate.
  - intros [= <- <- <-]. exact E.
  - apply IH.
  - intros [= <- <- <-]. exact E.
Qed.

Lemma make_rock_while_total ship d k : forall n x y s,
  (k < n)%nat -> far_sample rnd ship d (s + 2 * k) ->
  is_Some (make_rock_while rnd n ship d x y s).
Proof.
  induction k as [|k IH]; intros n x y s Hn Hfar;
    (destruct n as [|n]; [lia|]); cbn;
    destruct (distance_lt (point_of_Z x y) ship d); eauto.
  - replace (s + 2 * 0)%nat with s in Hfar by lia.
    unfold far_sample in Hfar.
    destruct n; cbn; rewrite Hfar; eauto.
  - apply IH; [lia|].
    now replace (S (S s) + 2 * k)%nat with (s + 2 * S k)%nat by lia.
Qed.

Lemma make_rock_while_mono ship d n : forall m x y s r,
  (n <= m)%nat ->
  make_rock_while rnd n ship d x y s = Some r ->
  make_rock_while rnd m ship d x y s = Some r.
Proof.
  induction n as [|n IH]; intros m x y s r Hm; cbn.
  - destruct m; cbn; destruct (distance_lt (point_of_Z x y) ship d);
      congruence.
  - destruct m as [|m]; [lia|]. cbn.
    destruct (distance_lt (point_of_Z x y) ship d); [|congruence].
    apply IH. lia.
Qed.

(** What a call of [make_rock] that returns has done. *)
Lemma make_rock_inv fuel size g g' :
  make_rock rnd fuel size g = Some g' ->
  exists x y s,
    distance_lt (point_of_Z x y) (position (spaceship g))
      (min_rock_distance g) = false /\
    g' = set_rocks (rocks g ++ [Rock_init rnd (next_id g) (x, y) size s])
           (set_next_id (S (next_id g)) (set_seed (s + 4) g)).
Proof.
  unfold make_rock.
  destruct (make_rock_while rnd fuel _ _ _ _ _) as [[[x y] s]|] eqn:E;
    [|discriminate].
  cbn. intros [= <-]. exists x, y, s. split; [|reflexivity].
  eapply make_rock_while_far, E.
Qed.

(** [make_rock] appends one rock and touches nothing but the rocks, the
    random stream and the next identity. *)
Lemma make_rock_frame fuel size g g' :
  make_rock rnd fuel size g = Some g' ->
  (exists r, rocks g' = rocks g ++ [r] /\ rock_size r = size /\
             rock_id r = next_id g) /\
  min_rock_distance g' = min_rock_distance g /\
  spaceship g' = spaceship g /\ missiles g' = missiles g /\
  state g' = state g /\ lives g' = lives g /\ score g' = score g /\
  counter g' = counter g /\ fire_time g' = fire_time g /\
  start_timer g' = start_timer g /\ restart_timer g' = restart_timer g /\
  next_id g' = S (next_id g).
Proof.
  intros H. apply make_rock_inv in H as (x & y & s & _ & ->). cbn.
  repeat split. eexists. repeat split.
Qed.

Lemma make_rock_mono fuel fuel' size g g' :
  (fuel <= fuel')%nat ->
  make_rock rnd fuel size g = Some g' ->
  make_rock rnd fuel' size g = Some g'.
Proof.
  unfold make_rock. intros Hle.
  destruct (make_rock_while rnd fuel _ _ _ _ _) as [r|] eqn:E;
    [|discriminate].
  now rewrite (make_rock_while_mono _ _ _ _ _ _ _ _ Hle E).
Qed.

Lemma make_rock_total fuel size g k :
  (k < fuel)%nat ->
  far_sample rnd (position (spaceship g)) (min_rock_distance g)
    (S (S (seed g)) + 2 * k) ->
  is_Some (make_rock rnd fuel size g).
Proof.
  intros Hk Hfar. unfold make_rock.
  destruct (make_rock_while_total _ _ k fuel
              (randint rnd 200 (width - 200) (seed g))
              (randint rnd 200 (height - 200) (S (seed g)))
              (S (S (seed g))) Hk Hfar) as [[[x y] s] ->].
  cbn. eauto.
Qed.

(** C8.  With a positive [min_rock_distance] (it is 350 from [do_init]
    on), every rock that [make_rock] produces is, when it is appended, at a
    distance of [min_rock_distance] or more from the position of the ship,
    wherever the ship is; and [make_rock] does produce a rock as soon as
    one of the candidates the fuel lets it draw is that far. *)
Theorem make_rock_min_distance fuel size g :
  (0 < min_rock_distance g)%Q ->
  (forall g', make_rock rnd fuel size g = Some g' ->
     exists r,
       rocks g' = rocks g ++ [r] /\ rock_size r = size /\
       (min_rock_distance g * min_rock_distance g <=
          distance2 (rock_position r) (position (spaceship g)))%Q) /\
  (forall k, (k < fuel)%nat ->
     far_sample rnd (position (spaceship g)) (min_rock_distance g)
       (S (S (seed g)) + 2 * k) ->
     is_Some (make_rock rnd fuel size g)).
Proof.
  intros Hd. split.
  - intros g' H. apply make_rock_inv in H as (x & y & s & Hfar & ->).
    eexists. cbn. repeat split.
    now apply distance_lt_false.
  - intros k. apply make_rock_total.
Qed.

End Factory.

(** ** Missiles against rocks *)

Lemma same_but_rocks_refl g : same_but_rocks g g.
Proof. repeat split. Qed.

Lemma same_but_rocks_trans g1 g2 g3 :
  same_but_rocks g1 g2 -> same_but_rocks g2 g3 -> same_but_rocks g1 g3.
Proof. unfold same_but_rocks. intuition congruence. Qed.

Section Missiles.

Context (rnd : nat -> Z) (sin_neg_radians neg_cos_radians : Z -> Q).


(** The three branches of the body of the inner loop are one. *)
Lemma missile_vs_rock_eq fuel m rock g :
  missile_vs_rock rnd fuel m rock g =
    if hits m rock then
      g' ← spawn rnd fuel (children (rock_size rock)) (remove_hit m rock g);
      Some (set_score (score g' + score_value (rock_size rock)) g')
    else Some g.
Proof.
  unfold missile_vs_rock, hits.
  destruct (rock_size rock); cbn;
    destruct (distance_lt _ _ _); try reflexivity;
    destruct (make_rock rnd fuel _ (remove_hit m rock g)) as [g1|];
    try reflexivity; cbn;
    destruct (make_rock rnd fuel _ g1); reflexivity.
Qed.

Lemma spawn_inv fuel l : forall g g',
  spawn rnd fuel l g = Some g' ->
  same_but_rocks g g' /\
  exists cs, rocks g' = rocks g ++ cs /\ rock_size <$> cs = l.
Proof.
  induction l as [|s l IH]; intros g g'; cbn.
  - intros [= <-]. split; [apply same_but_rocks_refl|].
    exists []. now rewrite app_nil_r.
  - destruct (make_rock rnd fuel s g) as [g1|] eqn:E; [|discriminate].
    cbn. intros H. apply IH in H as (F & cs & Hcs & Hsz).
    apply make_rock_frame in E as ((r & Hr & Hs & _) & E).
    split.
    + eapply same_but_rocks_trans; [|exact F].
      unfold same_but_rocks. tauto.
    + exists (r :: cs). rewrite Hcs, Hr, <- app_assoc. cbn.
      now rewrite Hs, Hsz.
Qed.

Lemma spawn_mono fuel fuel' l : forall g g',
  (fuel <= fuel')%nat ->
  spawn rnd fuel l g = Some g' -> spawn rnd fuel' l g = Some g'.
Proof.
  induction l as [|s l IH]; intros g g' Hle; cbn; [congruence|].
  destruct (make_rock rnd fuel s g) as [g1|] eqn:E; [|discriminate].
  rewrite (make_rock_mono _ _ _ _ _ _ Hle E). cbn. now apply IH.
Qed.

(** With a random stream that keeps proposing places far from the ship,
    enough fuel makes every rock of the list. *)
Lemma spawn_total l : forall g,
  eventually_far rnd (position (spaceship g)) (min_rock_distance g) ->
  exists n g', forall fuel, (n <= fuel)%nat -> spawn rnd fuel l g = Some g'.
Proof.
  induction l as [|s l IH]; intros g Hfar.
  - exists 0%nat, g. reflexivity.
  - destruct (Hfar (S (S (seed g)))) as [k Hk].
    destruct (make_rock_total rnd (S k) s g k (Nat.lt_succ_diag_r k) Hk)
      as [g1 E1].
    destruct (make_rock_frame _ _ _ _ _ E1) as (_ & Hd & Hs & _).
    destruct (IH g1) as (n & g' & Hg');
      [now rewrite Hd, Hs|].
    exists (Nat.max (S k) n), g'. intros fuel Hle. cbn.
    rewrite (make_rock_mono _ (S k) fuel _ _ _ ltac:(lia) E1). cbn.
    apply Hg'. lia.
Qed.

(** *** Identity in a list without duplicates *)

Lemma remove_rock_delete (l : list Rock) : forall j r r',
  NoDup (rock_id <$> l) -> l !! j = Some r -> rock_id r' = rock_id r ->
  remove_rock r' l = delete j l.
Proof.
  induction l as [|x l IH]; intros j r r' Hnd Hj Hid; [discriminate|].
  cbn in Hnd. apply NoDup_cons in Hnd as [Hx Hnd].
  destruct j as [|j]; cbn in *.
  - injection Hj as ->. now rewrite Hid, Nat.eqb_refl.
  - destruct (Nat.eqb (rock_id x) (rock_id r')) eqn:E.
    + apply Nat.eqb_eq in E. exfalso. apply Hx.
      rewrite E, Hid. apply list_elem_of_fmap. exists r. split; [easy|].
      eapply list_elem_of_lookup_2, Hj.
    + f_equal. eapply IH; eauto.
Qed.

Lemma length_remove_rock r (l : list Rock) :
  (length l <= S (length (remove_rock r l)))%nat.
Proof.
  induction l as [|x l IH]; cbn; [lia|].
  destruct (Nat.eqb (rock_id x) (rock_id r)); cbn; lia.
Qed.

Lemma remove_hit_rocks m rock g :
  rocks (remove_hit m rock g) = remove_rock rock (rocks g).
Proof.
  unfold remove_hit. cbn.
  now destruct (missile_in m (active_missiles (spaceship g))).
Qed.

(** Removing the rock and the missile leaves the rest of the game, and
    of the ship, as it was. *)
Lemma remove_hit_frame m rock g :
  let g' := remove_hit m rock g in
  min_rock_distance g' = min_rock_distance g /\
  state g' = state g /\ lives g' = lives g /\ score g' = score g /\
  counter g' = counter g /\ start_timer g' = start_timer g /\
  restart_timer g' = restart_timer g /\
  position (spaceship g') = position (spaceship g).
Proof.
  unfold remove_hit. cbn.
  destruct (missile_in m (active_missiles (spaceship g))); cbn; tauto.
Qed.

End Missiles.

Lemma same_control_refl g : same_control g g.
Proof. repeat split. Qed.

Lemma same_control_trans g1 g2 g3 :
  same_control g1 g2 -> same_control g2 g3 -> same_control g1 g3.
Proof. unfold same_control. intuition congruence. Qed.

Lemma same_but_rocks_control g g' : same_but_rocks g g' -> same_control g g'.
Proof. unfold same_but_rocks, same_control. intuition congruence. Qed.


Section MissilePass.

Context (rnd : nat -> Z) (sin_neg_radians neg_cos_radians : Z -> Q).

#[local] Abbreviation for_missile' :=
  (for_missile rnd sin_neg_radians neg_cos_radians).
#[local] Abbreviation missiles_physics' :=
  (missiles_physics rnd sin_neg_radians neg_cos_radians).

Lemma missile_vs_rock_hit fuel m rock g g' :
  hits m rock = true ->
  missile_vs_rock rnd fuel m rock g = Some g' ->
  same_control g g' /\
  score g' = (score g + score_value (rock_size rock))%Z /\
  exists cs, rocks g' = remove_rock rock (rocks g) ++ cs /\
             rock_size <$> cs = children (rock_size rock).
Proof.
  clear sin_neg_radians neg_cos_radians.
  intros Hhit. rewrite missile_vs_rock_eq, Hhit.
  destruct (spawn rnd fuel _ _) as [g1|] eqn:E; [|discriminate].
  cbn. intros [= <-].
  apply spawn_inv in E as (F & cs & Hcs & Hsz).
  pose proof (remove_hit_frame m rock g) as R. cbn in R.
  pose proof (same_but_rocks_control _ _ F) as C.
  unfold same_but_rocks in F. unfold same_control in *. cbn.
  repeat split; try (intuition congruence).
  exists cs. now rewrite Hcs, remove_hit_rocks.
Qed.

Lemma missile_vs_rock_miss fuel m rock g :
  hits m rock = false -> missile_vs_rock rnd fuel m rock g = Some g.
Proof. intros H. now rewrite missile_vs_rock_eq, H. Qed.

(** C1, as the code has it.  When a missile is within the hit distance of
    the rock at index [j], the body of the loop removes that rock and
    appends the rocks [make_rock] is called for: two normal rocks for a big
    rock, two small rocks for a normal rock, and one big rock for a small
    rock; the score grows by 20, 50 and 100.  The rocks are made as soon as
    the random stream proposes places far enough from the ship. *)
Theorem split_on_hit m rock j g :
  NoDup (rock_id <$> rocks g) ->
  rocks g !! j = Some rock ->
  hits m rock = true ->
  (forall fuel g', missile_vs_rock rnd fuel m rock g = Some g' ->
     exists cs,
       rocks g' = delete j (rocks g) ++ cs /\
       rock_size <$> cs = children (rock_size rock) /\
       score g' = (score g + score_value (rock_size rock))%Z) /\
  (eventually_far rnd (position (spaceship g)) (min_rock_distance g) ->
   exists n, forall fuel, (n <= fuel)%nat ->
     is_Some (missile_vs_rock rnd fuel m rock g)).
Proof.
  intros Hnd Hj Hhit. split.
  - intros fuel g' H.
    apply missile_vs_rock_hit in H as (_ & Hs & cs & Hcs & Hsz); [|easy].
    exists cs. rewrite Hcs.
    now rewrite (remove_rock_delete _ j rock rock Hnd Hj eq_refl).
  - intros Hfar.
    pose proof (remove_hit_frame m rock g) as R. cbn in R.
    destruct (spawn_total rnd (children (rock_size rock))
                (remove_hit m rock g)) as (n & g1 & Hg1).
    { destruct R as (-> & _ & _ & _ & _ & _ & _ & ->). exact Hfar. }
    exists n. intros fuel Hle.
    rewrite missile_vs_rock_eq, Hhit, (Hg1 fuel Hle). cbn. eauto.
Qed.

Lemma missile_vs_rock_inv fuel m rock g g' :
  missile_vs_rock rnd fuel m rock g = Some g' ->
  same_control g g' /\ (length (rocks g) <= length (rocks g'))%nat /\
  (score g <= score g')%Z.
Proof.
  destruct (hits m rock) eqn:Hhit.
  - intros H.
    apply missile_vs_rock_hit in H as (C & Hs & cs & Hcs & Hsz); [|easy].
    split; [exact C|]. split.
    + rewrite Hcs, length_app.
      pose proof (length_remove_rock rock (rocks g)).
      assert (length cs = length (children (rock_size rock))) as ->
        by now rewrite <- Hsz, length_fmap.
      destruct (rock_size rock); cbn; lia.
    + rewrite Hs. destruct (rock_size rock); cbn; lia.
  - rewrite missile_vs_rock_miss by easy. intros [= <-].
    split; [apply same_control_refl|]. split; lia.
Qed.

Lemma for_rock_vs_missile_inv fuel n m : forall j g g',
  for_rock_vs_missile rnd fuel n m j g = Some g' ->
  same_control g g' /\ (length (rocks g) <= length (rocks g'))%nat /\
  (score g <= score g')%Z.
Proof.
  induction n as [|n IH]; intros j g g'; cbn;
    destruct (rocks g !! j) as [rock|];
    try discriminate;
    try (intros [= <-]; split; [apply same_control_refl|split; lia]).
  destruct (missile_vs_rock rnd fuel m rock g) as [g1|] eqn:E;
    [|discriminate].
  cbn. intros H. apply IH in H as (C2 & L2 & S2).
  apply missile_vs_rock_inv in E as (C1 & L1 & S1).
  split; [eapply same_control_trans; eauto|]. split; lia.
Qed.

Lemma for_missile_inv fuel n : forall i g g',
  for_missile' fuel n i g = Some g' ->
  same_control g g' /\ (length (rocks g) <= length (rocks g'))%nat /\
  (score g <= score g')%Z.
Proof.
  induction n as [|n IH]; intros i g g'; cbn;
    destruct (active_missiles (spaceship g) !! i) as [m|];
    try discriminate;
    try (intros [= <-]; split; [apply same_control_refl|split; lia]).
  destruct (for_rock_vs_missile rnd fuel fuel _ 0 _) as [g1|] eqn:E;
    [|discriminate].
  cbn. intros H. apply IH in H as (C2 & L2 & S2).
  apply for_rock_vs_missile_inv in E as (C1 & L1 & S1).
  cbn in *. split; [|split; lia].
  eapply same_control_trans; [|exact C2].
  unfold same_control in *. cbn in *. tauto.
Qed.

Lemma missiles_physics_inv fuel g g' :
  missiles_physics' fuel g = Some g' ->
  same_control g g' /\ (length (rocks g) <= length (rocks g'))%nat /\
  (score g <= score g')%Z.
Proof.
  unfold missiles_physics.
  destruct (0 <? length (active_missiles (spaceship g)))%nat.
  - apply for_missile_inv.
  - intros [= <-]. split; [apply same_control_refl|split; lia].
Qed.

End MissilePass.

(** ** A pass in which no missile hits a rock *)

Section NoHit.

Context (rnd : nat -> Z) (sin_neg_radians neg_cos_radians : Z -> Q).

#[local] Abbreviation Missile_move' :=
  (Missile_move sin_neg_radians neg_cos_radians).
#[local] Abbreviation for_missile' :=
  (for_missile rnd sin_neg_radians neg_cos_radians).
#[local] Abbreviation missiles_physics' :=
  (missiles_physics rnd sin_neg_radians neg_cos_radians).




End NoHit.

(** ** Rocks against the ship and the edge of the arena *)

Lemma rocks_pass_refl g : rocks_pass g g.
Proof. unfold rocks_pass. repeat split; auto. Qed.

Lemma rocks_pass_trans g1 g2 g3 :
  rocks_pass g1 g2 -> rocks_pass g2 g3 -> rocks_pass g1 g3.
Proof.
  unfold rocks_pass.
  intros (A1 & A2 & A3 & A4 & A5 & A6 & A7 & A8)
         (B1 & B2 & B3 & B4 & B5 & B6 & B7 & B8).
  repeat split; try congruence; try lia.
  destruct A8 as [(?&?&?&?)|(?&?&?&?)], B8 as [(?&?&?&?)|(?&?&?&?)];
    [left|right|right|right]; repeat split; try congruence; lia.
Qed.

Section RockPass.

Context (rnd : nat -> Z).

Lemma rock_step_eq fuel i rock g :
  rock_step rnd fuel i rock g =
    let rock' := Rock_move rock in
    let g1 := set_rocks (<[i:=rock']> (rocks g)) g in
    if touches_ship rock' g then Some (die g1)
    else if leaves_arena rock' then
      make_rock rnd fuel big (set_rocks (remove_rock rock' (rocks g1)) g1)
    else Some g1.
Proof. reflexivity. Qed.

Lemma rock_step_inv fuel i rock g g' :
  rock_step rnd fuel i rock g = Some g' -> rocks_pass g g'.
Proof.
  rewrite rock_step_eq. cbn zeta.
  destruct (touches_ship _ _).
  - intros [= <-]. unfold rocks_pass. cbn. rewrite length_insert.
    repeat split; auto. right. repeat split. lia.
  - destruct (leaves_arena _).
    + intros H.
      apply make_rock_frame in H as ((r & Hr & _) & F). cbn in *.
      unfold rocks_pass. rewrite Hr, length_app. cbn.
      pose proof (length_remove_rock (Rock_move rock)
                    (<[i:=Rock_move rock]> (rocks g))) as L.
      rewrite length_insert in L.
      repeat split; try tauto; try lia.
    + intros [= <-]. unfold rocks_pass. cbn. rewrite length_insert.
      repeat split; auto.
Qed.

Lemma for_rock_inv fuel n : forall i g g',
  for_rock rnd fuel n i g = Some g' -> rocks_pass g g'.
Proof.
  induction n as [|n IH]; intros i g g'; cbn;
    destruct (rocks g !! i) as [rock|];
    try discriminate; try (intros [= <-]; apply rocks_pass_refl).
  destruct (rock_step rnd fuel i rock g) as [g1|] eqn:E; [|discriminate].
  cbn. intros H. apply IH in H. apply rock_step_inv in E.
  eapply rocks_pass_trans; eauto.
Qed.

Lemma rocks_physics_inv fuel g g' :
  rocks_physics rnd fuel g = Some g' -> rocks_pass g g'.
Proof.
  unfold rocks_physics. destruct (0 <? length (rocks g))%nat.
  - apply for_rock_inv.
  - intros [= <-]. apply rocks_pass_refl.
Qed.

Lemma delete_insert_same {A} (l : list A) i x :
  delete i (<[i:=x]> l) = delete i l.
Proof.
  rewrite !delete_take_drop.
  now rewrite take_insert_ge, drop_insert_lt by lia.
Qed.

(** C6, as the code has it.  A rock visited by the pass that, once moved,
    is not within 90 of the ship and is farther from the centre of the
    arena than half its diagonal, is removed, and exactly one rock is
    appended in its place: a big one, whatever the size of the rock that
    left.  The new rock is made as soon as the random stream proposes a
    place far enough from the ship. *)
Theorem recycle_makes_big i rock g :
  NoDup (rock_id <$> rocks g) ->
  rocks g !! i = Some rock ->
  touches_ship (Rock_move rock) g = false ->
  leaves_arena (Rock_move rock) = true ->
  (forall fuel g', rock_step rnd fuel i rock g = Some g' ->
     exists r, rocks g' = delete i (rocks g) ++ [r] /\
               rock_size r = big /\ rock_id r = next_id g) /\
  (eventually_far rnd (position (spaceship g)) (min_rock_distance g) ->
   exists n, forall fuel, (n <= fuel)%nat ->
     is_Some (rock_step rnd fuel i rock g)).
Proof.
  intros Hnd Hi Hship Hout.
  assert (remove_rock (Rock_move rock) (<[i:=Rock_move rock]> (rocks g))
          = delete i (rocks g)) as Hrm.
  { rewrite <- (delete_insert_same (rocks g) i (Rock_move rock)).
    apply (remove_rock_delete _ i (Rock_move rock)); [| |reflexivity].
    - rewrite list_fmap_insert, list_insert_id; [exact Hnd|].
      now rewrite list_lookup_fmap, Hi.
    - apply list_lookup_insert_eq. eapply lookup_lt_Some, Hi. }
  split.
  - intros fuel g'. rewrite rock_step_eq. cbn zeta.
    rewrite Hship, Hout. intros H.
    apply make_rock_frame in H as ((r & Hr & Hs & Hid) & _).
    cbn in Hr, Hid. exists r. now rewrite Hr, Hrm.
  - intros Hfar. destruct (Hfar (S (S (seed g)))) as [k Hk].
    exists (S k). intros fuel Hle.
    rewrite rock_step_eq. cbn zeta. rewrite Hship, Hout.
    apply (make_rock_total rnd fuel big _ k); [lia|exact Hk].
Qed.

End RockPass.

(** ** The event loop *)

Section Loop.

Context (rnd : nat -> Z) (sin_neg_radians neg_cos_radians : Z -> Q).
Context (image_width image_height : Q).

#[local] Abbreviation fire_check' :=
  (fire_check sin_neg_radians neg_cos_radians image_width image_height).
#[local] Abbreviation steer' := (steer sin_neg_radians neg_cos_radians).
#[local] Abbreviation playing_tick' :=
  (playing_tick rnd sin_neg_radians neg_cos_radians).
#[local] Abbreviation refresh' :=
  (refresh rnd sin_neg_radians neg_cos_radians image_width image_height).
#[local] Abbreviation handle_event' :=
  (handle_event rnd sin_neg_radians neg_cos_radians
     image_width image_height).
#[local] Abbreviation missiles_physics' :=
  (missiles_physics rnd sin_neg_radians neg_cos_radians).
#[local] Abbreviation reachable' :=
  (reachable rnd sin_neg_radians neg_cos_radians image_width image_height).

Lemma steer_frame keys g :
  let g' := steer' keys g in
  rocks g' = rocks g /\
  active_missiles (spaceship g') = active_missiles (spaceship g) /\
  min_rock_distance g' = min_rock_distance g /\
  state g' = state g /\ lives g' = lives g /\ score g' = score g /\
  counter g' = counter g /\ start_timer g' = start_timer g /\
  restart_timer g' = restart_timer g.
Proof.
  unfold steer, turn, physics.
  destruct (K_RIGHT keys || K_d keys), (K_LEFT keys || K_a keys),
    (K_UP keys || K_w keys); cbn;
    try destruct (decide (state g = PLAYING)); cbn; tauto.
Qed.

Lemma draw_playing fuel g :
  state g = PLAYING ->
  draw rnd fuel g =
    if (counter g + 1 =? 30 * FPS)%Z then
      if (length (rocks g) <? 10)%nat then
        g1 ← make_rock rnd fuel big (set_counter (counter g + 1) g);
        Some (set_counter 0 g1)
      else Some (set_counter (counter g + 1) g)
    else Some (set_counter (counter g + 1) g).
Proof.
  intros E. unfold draw.
  destruct (decide (state g = PLAYING)); [reflexivity|contradiction].
Qed.

Lemma draw_not_playing fuel g :
  state g <> PLAYING -> draw rnd fuel g = Some g.
Proof.
  intros E. unfold draw.
  destruct (decide (state g = PLAYING)); [contradiction|reflexivity].
Qed.

Lemma draw_inv fuel g g' :
  draw rnd fuel g = Some g' ->
  spaceship g' = spaceship g /\ state g' = state g /\
  lives g' = lives g /\ score g' = score g /\
  start_timer g' = start_timer g /\ restart_timer g' = restart_timer g /\
  (length (rocks g) <= length (rocks g'))%nat /\
  (state g <> PLAYING -> g' = g).
Proof.
  clear sin_neg_radians neg_cos_radians.
  destruct (decide (state g = PLAYING)) as [E|E].
  - rewrite draw_playing by assumption. destruct (Z.eqb _ _).
    + destruct (Nat.ltb _ _).
      * destruct (make_rock rnd fuel big _) as [g1|] eqn:M; [|discriminate].
        cbn. intros [= <-].
        apply make_rock_frame in M as ((r & Hr & _) & F). cbn in *.
        rewrite Hr, length_app. cbn.
        repeat split; try tauto; try lia.
      * intros [= <-]. cbn. repeat split; auto. tauto.
    + intros [= <-]. cbn. repeat split; auto. tauto.
  - rewrite draw_not_playing by assumption.
    intros [= <-]. repeat split; auto.
Qed.

Lemma playing_tick_inv fuel keys g g' :
  playing_tick' fuel keys g = Some g' ->
  restart_timer g' = restart_timer g /\
  (length (rocks g) <= length (rocks g'))%nat /\
  ((state g' = state g /\ counter g' = counter g /\
    start_timer g' = start_timer g /\ lives g' = lives g) \/
   (state g' = DYING /\ counter g' = 0%Z /\ start_timer g' = true /\
    (lives g' < lives g)%Z)).
Proof.
  unfold playing_tick. cbn zeta.
  pose proof (steer_frame keys g) as S. cbn zeta in S.
  set (ga := steer' keys g) in *.
  assert (exists gb, (if (0 <? length (active_missiles (spaceship ga)))%nat
                      then missiles_physics' fuel ga else Some ga) = Some gb
                     /\ same_control ga gb
                     /\ (length (rocks ga) <= length (rocks gb))%nat
                     \/ (if (0 <? length (active_missiles (spaceship ga)))%nat
                         then missiles_physics' fuel ga else Some ga) = None)
    as [gb [(-> & C & L)| ->]]; [| |discriminate].
  { destruct (0 <? _)%nat.
    - destruct (missiles_physics' fuel ga) as [gb|] eqn:E.
      + exists gb. left. apply missiles_physics_inv in E. tauto.
      + exists ga. now right.
    - exists ga. left. split; [reflexivity|].
      split; [apply same_control_refl|lia]. }
  cbn [mbind option_bind]. intros H.
  assert (rocks_pass gb g') as P.
  { destruct (Nat.ltb _ _); [eapply rocks_physics_inv, H|].
    injection H as <-. apply rocks_pass_refl. }
  unfold same_control in C. unfold rocks_pass in P.
  destruct P as (_ & _ & _ & _ & _ & P6 & P7 & P8).
  destruct S as (S1 & _ & _ & S4 & S5 & _ & S7 & S8 & S9).
  destruct C as (_ & C2 & C3 & C4 & C5 & C6 & _).
  rewrite S1 in L.
  split; [congruence|]. split; [lia|].
  destruct P8 as [(?&?&?&?)|(?&?&?&?)]; [left|right];
    repeat split; try congruence; lia.
Qed.

Lemma refresh_inv fuel keys now g g' :
  refresh' fuel keys now g = Some g' ->
  restart_timer g' = restart_timer g /\
  (length (rocks g) <= length (rocks g'))%nat /\
  (state g <> PLAYING ->
     state g' = state g /\ counter g' = counter g /\
     start_timer g' = start_timer g) /\
  (state g = PLAYING ->
     (state g' = PLAYING /\ start_timer g' = start_timer g) \/
     (state g' = DYING /\ counter g' = 0%Z /\ start_timer g' = true)).
Proof.
  destruct (decide (state g = PLAYING)) as [E|E].
  2:{ rewrite refresh_not_playing by assumption. intros [= <-].
      pose proof (fire_check_frame sin_neg_radians neg_cos_radians
                    image_width image_height keys now g) as F.
      cbn zeta in F.
      destruct F as (F1 & _ & _ & F4 & _ & _ & F7 & F8 & F9 & _).
      rewrite F1. repeat split; try assumption; try lia. contradiction. }
  unfold refresh.
  pose proof (fire_check_frame sin_neg_radians neg_cos_radians
                image_width image_height keys now g) as F.
  cbn zeta in F. set (g0 := fire_check' keys now g) in *.
  destruct F as (F1 & _ & _ & F4 & _ & _ & F7 & F8 & F9 & _).
  destruct (decide (state g0 = PLAYING)) as [E0|E0];
    [|exfalso; apply E0; congruence].
  destruct (playing_tick' fuel keys g0) as [g1|] eqn:T; [|discriminate].
  cbn [mbind option_bind]. intros D.
  apply playing_tick_inv in T as (T1 & T2 & T3).
  apply draw_inv in D as (_ & D2 & _ & _ & D5 & D6 & D7 & D8).
  rewrite F1 in T2.
  split; [congruence|]. split; [lia|].
  split; [easy|]. intros _.
  destruct T3 as [(?&?&?&?)|(?&?&?&?)].
  - left. split; congruence.
  - right. rewrite D8 by congruence. tauto.
Qed.

Lemma make_rocks_inv fuel k : forall g g',
  make_rocks rnd fuel k g = Some g' ->
  same_but_rocks g g' /\
  length (rocks g') = (length (rocks g) + k)%nat.
Proof.
  induction k as [|k IH]; intros g g'; cbn.
  - intros [= <-]. split; [apply same_but_rocks_refl|lia].
  - destruct (make_rock rnd fuel big g) as [g1|] eqn:E; [|discriminate].
    cbn. intros H. apply IH in H as (F & L).
    apply make_rock_frame in E as ((r & Hr & _) & E).
    split.
    + eapply same_but_rocks_trans; [|exact F].
      unfold same_but_rocks. tauto.
    + rewrite L, Hr, length_app. cbn. lia.
Qed.

Lemma do_init_inv fuel g g' :
  do_init rnd fuel g = Some g' ->
  state g' = PLAYING /\ counter g' = 0%Z /\ lives g' = 3%Z /\
  score g' = 0%Z /\ length (rocks g') = 4%nat /\
  start_timer g' = start_timer g /\ restart_timer g' = restart_timer g.
Proof.
  clear sin_neg_radians neg_cos_radians.
  unfold do_init.
  destruct (make_rocks rnd fuel 4 _) as [g1|] eqn:E; [|discriminate].
  cbn. intros [= <-].
  apply make_rocks_inv in E as (F & L). unfold same_but_rocks in F.
  cbn in *. tauto.
Qed.

Lemma MyGame_init_timers_ok fuel now g :
  MyGame_init rnd fuel now = Some g -> timers_ok g.
Proof.
  clear sin_neg_radians neg_cos_radians.
  unfold MyGame_init.
  destruct (do_init rnd fuel _) as [g1|] eqn:E; [|discriminate].
  cbn. intros [= <-].
  apply do_init_inv in E as (_ & _ & _ & _ & _ & E1 & E2).
  unfold timers_ok. cbn in *. rewrite E1, E2. split; discriminate.
Qed.

Lemma handle_event_timers_ok fuel e g g' :
  timers_ok g -> deliverable e g ->
  handle_event' fuel e g = Some g' -> timers_ok g'.
Proof.
  intros [J1 J2] Hd.
  destruct e; cbn [handle_event lives set_start_timer].
  - intros [= <-]. now split.
  - intros H. apply refresh_inv in H as (R1 & _ & R3 & R4).
    destruct (decide (state g = PLAYING)) as [E|E].
    + destruct (R4 E) as [[Hs Ht]|(Hs & Hc & Ht)]; split.
      * rewrite Ht. intros T. destruct (J1 T). congruence.
      * rewrite R1. intros T. specialize (J2 T). congruence.
      * easy.
      * rewrite R1. intros T. specialize (J2 T). congruence.
    + destruct (R3 E) as (Hs & Hc & Ht). split.
      * rewrite Ht, Hs, Hc. exact J1.
      * rewrite R1, Hs. exact J2.
  - cbn in Hd. destruct (J1 Hd) as [Hs Hc].
    assert (restart_timer g = false) as Hr.
    { destruct (restart_timer g); [|reflexivity].
      specialize (J2 eq_refl). congruence. }
    destruct (lives g <? 1)%Z.
    + intros [= <-]. split; cbn; [discriminate|reflexivity].
    + destruct (make_rocks rnd fuel 4 _) as [g1|] eqn:E; [|discriminate].
      cbn. intros [= <-].
      apply make_rocks_inv in E as (F & _). unfold same_but_rocks in F.
      cbn in F. split; cbn; intros T; exfalso.
      * destruct F as (_&_&_&_&_&_&_&_&F9&_). congruence.
      * destruct F as (_&_&_&_&_&_&_&_&_&F10). congruence.
  - cbn in Hd. specialize (J2 Hd).
    assert (start_timer g = false) as Ht.
    { destruct (start_timer g); [|reflexivity].
      destruct (J1 eq_refl). congruence. }
    intros [= <-]. split; cbn; intros T; congruence.
  - destruct (decide (state g = STARTING)) as [E|E].
    + intros H. apply do_init_inv in H as (Hs & _ & _ & _ & _ & H1 & H2).
      split; intros T.
      * rewrite H1 in T. destruct (J1 T). congruence.
      * rewrite H2 in T. specialize (J2 T). congruence.
    + intros [= <-]. now split.
  - intros [= <-]. now split.
Qed.

Lemma reachable_timers_ok g : reachable' g -> timers_ok g.
Proof.
  induction 1 as [fuel now g H | fuel e g g' _ IH Hd H].
  - eapply MyGame_init_timers_ok, H.
  - eapply handle_event_timers_ok; eauto.
Qed.


End Loop.

(** ** The claims about whole ticks *)

Section Session.

Context (rnd : nat -> Z) (sin_neg_radians neg_cos_radians : Z -> Q).
Context (image_width image_height : Q).

#[local] Abbreviation fire_check' :=
  (fire_check sin_neg_radians neg_cos_radians image_width image_height).
#[local] Abbreviation steer' := (steer sin_neg_radians neg_cos_radians).
#[local] Abbreviation missiles_physics' :=
  (missiles_physics rnd sin_neg_radians neg_cos_radians).


Lemma missiles_guard fuel g :
  (if (0 <? length (active_missiles (spaceship g)))%nat
   then missiles_physics' fuel g else Some g) = missiles_physics' fuel g.
Proof. unfold missiles_physics. now destruct (Nat.ltb _ _). Qed.

Lemma rocks_guard fuel g :
  (if (0 <? length (rocks g))%nat
   then rocks_physics rnd fuel g else Some g) = rocks_physics rnd fuel g.
Proof. unfold rocks_physics. now destruct (Nat.ltb _ _). Qed.

End Session.

(** * The claims on concrete sessions *)

#[local] Abbreviation refresh_0 :=
  (refresh (stream []) sin_neg_radians_0 neg_cos_radians_0
     image_size image_size 10).
#[local] Abbreviation fire_check_0 :=
  (fire_check sin_neg_radians_0 neg_cos_radians_0 image_size image_size).
#[local] Abbreviation move_0 :=
  (Missile_move sin_neg_radians_0 neg_cos_radians_0).

(** ** C1: a small rock that is hit *)

(** C1, against the claim: the missile of [game_small_rock] destroys its only
    rock, a small one, and a pass of [missiles_physics] ends with one rock, a
    new big one, and 100 more points; the claim has no new rock. *)
Lemma small_rock_hit_adds_a_big_rock :
  rock_size <$> rocks game_small_rock = [small] /\
  in_reach game_small_rock = [true] /\
  exists g',
    missiles_physics (stream []) sin_neg_radians_0 neg_cos_radians_0 10
      game_small_rock = Some g' /\
    rock_size <$> rocks g' = [big] /\
    rock_id <$> rocks g' = [9%nat] /\
    score g' = (score game_small_rock + 100)%Z.
Proof.
  split; [reflexivity|]. split; [reflexivity|].
  eexists. split; [vm_compute; reflexivity|].
  repeat split.
Qed.

Lemma split_on_hit_witness :
  (forall fuel g',
     missile_vs_rock (stream []) fuel (move_0 a_missile) a_small_rock
       game_small_rock = Some g' ->
     exists cs,
       rocks g' = delete 0%nat (rocks game_small_rock) ++ cs /\
       rock_size <$> cs = children (rock_size a_small_rock) /\
       score g' =
         (score game_small_rock + score_value (rock_size a_small_rock))%Z) /\
  (eventually_far (stream []) (position (spaceship game_small_rock))
     (min_rock_distance game_small_rock) ->
   exists n, forall fuel, (n <= fuel)%nat ->
     is_Some (missile_vs_rock (stream []) fuel (move_0 a_missile)
                a_small_rock game_small_rock)).
Proof.
  apply (split_on_hit (stream []) (move_0 a_missile) a_small_rock 0
           game_small_rock).
  - apply NoDup_singleton.
  - reflexivity.
  - reflexivity.
Defined.

(** ** C6: a rock that leaves the arena *)

(** C6, against the claim: the only rock of [game_leaving_rock], a small one,
    moves out of the circle around the arena, and a pass of [rocks_physics]
    ends with one rock, a new big one; the claim has a small one. *)
Lemma small_rock_recycled_as_big :
  rock_size <$> rocks game_leaving_rock = [small] /\
  leaves_arena (Rock_move a_leaving_rock) = true /\
  exists g',
    rocks_physics (stream []) 10 game_leaving_rock = Some g' /\
    rock_size <$> rocks g' = [big] /\
    rock_id <$> rocks g' = [8%nat].
Proof.
  split; [reflexivity|]. split; [reflexivity|].
  eexists. split; [vm_compute; reflexivity|].
  repeat split.
Qed.

Lemma recycle_makes_big_witness :
  (forall fuel g',
     rock_step (stream []) fuel 0 a_leaving_rock game_leaving_rock = Some g' ->
     exists r, rocks g' = delete 0%nat (rocks game_leaving_rock) ++ [r] /\
               rock_size r = big /\ rock_id r = next_id game_leaving_rock) /\
  (eventually_far (stream []) (position (spaceship game_leaving_rock))
     (min_rock_distance game_leaving_rock) ->
   exists n, forall fuel, (n <= fuel)%nat ->
     is_Some (rock_step (stream []) fuel 0 a_leaving_rock game_leaving_rock)).
Proof.
  apply (recycle_makes_big (stream []) 0 a_leaving_rock game_leaving_rock).
  - apply NoDup_singleton.
  - reflexivity.
  - reflexivity.
  - reflexivity.
Defined.

(** ** C7: two shots 0.15 seconds apart *)

(** C7, against the claim: a shot at 0.2 s and a shot at 0.35 s, exactly
    0.15 s later, leave one missile; the claim has two. *)
Lemma second_shot_at_150ms_is_dropped :
  active_missiles (spaceship game_leaving_rock) = [] /\
  (350000 - 200000 = 150000)%Z /\
  length (active_missiles (spaceship (fire_check_0 space_key 200000
                                        game_leaving_rock))) = 1%nat /\
  length (active_missiles
            (spaceship (fire_check_0 space_key 350000
                          (fire_check_0 space_key 200000
                             game_leaving_rock)))) = 1%nat.
Proof. repeat split. Qed.

Lemma fire_rate_limit_witness :
  length (active_missiles
            (spaceship (fire_check_0 space_key 350001
                          (fire_check_0 space_key 200000
                             game_leaving_rock)))) = 2%nat.
Proof.
  apply (fire_rate_limit sin_neg_radians_0 neg_cos_radians_0
           image_size image_size space_key space_key 200000 350001
           game_leaving_rock).
  - reflexivity.
  - reflexivity.
  - reflexivity.
Defined.

(** ** C8 and C10 at concrete games *)

Lemma make_rock_min_distance_witness :
  (forall g', make_rock (stream []) 10 big game_leaving_rock = Some g' ->
     exists r,
       rocks g' = rocks game_leaving_rock ++ [r] /\ rock_size r = big /\
       (min_rock_distance game_leaving_rock *
          min_rock_distance game_leaving_rock <=
        distance2 (rock_position r)
          (position (spaceship game_leaving_rock)))%Q) /\
  (forall k, (k < 10)%nat ->
     far_sample (stream []) (position (spaceship game_leaving_rock))
       (min_rock_distance game_leaving_rock)
       (S (S (seed game_leaving_rock)) + 2 * k) ->
     is_Some (make_rock (stream []) 10 big game_leaving_rock)).
Proof.
  apply (make_rock_min_distance (stream []) 10 big game_leaving_rock).
  reflexivity.
Defined.

Lemma refresh_outside_playing_witness :
  exists g',
    refresh_0 space_key 200000 (set_state DYING game_leaving_rock) = Some g' /\
    g' = fire_check_0 space_key 200000 (set_state DYING game_leaving_rock) /\
    position (spaceship g') = position (spaceship game_leaving_rock) /\
    angle (spaceship g') = angle (spaceship game_leaving_rock) /\
    rocks g' = rocks game_leaving_rock /\
    score g' = score game_leaving_rock /\
    lives g' = lives game_leaving_rock /\
    counter g' = counter game_leaving_rock /\ state g' = DYING /\
    (active_missiles (spaceship g') =
       active_missiles (spaceship game_leaving_rock) \/
     exists m, active_missiles (spaceship g') =
                 active_missiles (spaceship game_leaving_rock) ++ [m]).
Proof.
  apply (refresh_outside_playing (stream []) sin_neg_radians_0
           neg_cos_radians_0 image_size image_size 10 space_key 200000
           (set_state DYING game_leaving_rock)).
  discriminate.
Defined.

(** ** C2, C3 and C4: sessions in which the code leaves the claim *)

Section Reached.

Context (rnd : nat -> Z).

#[local] Abbreviation reachable_0 :=
  (reachable rnd sin_neg_radians_0 neg_cos_radians_0 image_size image_size).
#[local] Abbreviation run_0 :=
  (run rnd sin_neg_radians_0 neg_cos_radians_0 image_size image_size 10).

Lemma run_reachable events : forall g g',
  reachable_0 g -> forallb is_REFRESH events = true ->
  run_0 events g = Some g' -> reachable_0 g'.
Proof.
  induction events as [|e events IH]; intros g g' Hg He; cbn [run].
  - now intros [= <-].
  - cbn in He. apply andb_prop in He as [He1 He2].
    destruct e; try discriminate.
    destruct (handle_event _ _ _ _ _ _ _ g) as [g1|] eqn:E;
      [|discriminate].
    cbn [mbind option_bind]. apply IH; [|exact He2].
    eapply reachable_event; [exact Hg| |exact E]. exact I.
Qed.

Lemma session_reachable events g :
  forallb is_REFRESH events = true ->
  session rnd events = Some g -> reachable_0 g.
Proof.
  unfold session. intros He.
  destruct (MyGame_init rnd 10 0) as [g0|] eqn:E; [|discriminate].
  cbn [mbind option_bind]. apply run_reachable; [|exact He].
  eapply reachable_init, E.
Qed.

End Reached.

(** C2, on the code.  After 86 idle ticks of the session of [rnd_two] the
    state is PLAYING with 3 lives, and the next tick brings two rocks within
    90 of the ship: it ends in DYING with 1 life, two lives less. *)
Theorem two_rocks_take_two_lives :
  reachable rnd_two sin_neg_radians_0 neg_cos_radians_0 image_size image_size
    game_two /\
  state game_two = PLAYING /\ lives game_two = 3%Z /\
  touching game_two = 2%nat /\
  exists g',
    refresh rnd_two sin_neg_radians_0 neg_cos_radians_0 image_size image_size
      10 no_keys 0 game_two = Some g' /\
    state g' = DYING /\ lives g' = 1%Z.
Proof.
  split.
  { apply (session_reachable rnd_two (ticks 86)); [reflexivity|].
    vm_compute. reflexivity. }
  split; [vm_compute; reflexivity|].
  split; [vm_compute; reflexivity|].
  split; [vm_compute; reflexivity|].
  eexists. split; [vm_compute; reflexivity|].
  split; reflexivity.
Qed.

(** C4, on the code.  After 86 idle ticks of the session of [rnd_four] the
    state is PLAYING with 3 lives, and the next tick brings the four rocks
    within 90 of the ship: the session reaches a state with -1 lives. *)
Theorem lives_go_negative :
  reachable rnd_four sin_neg_radians_0 neg_cos_radians_0 image_size image_size
    game_four /\
  state game_four = PLAYING /\ lives game_four = 3%Z /\
  touching game_four = 4%nat /\
  exists g',
    reachable rnd_four sin_neg_radians_0 neg_cos_radians_0
      image_size image_size g' /\
    refresh rnd_four sin_neg_radians_0 neg_cos_radians_0 image_size image_size
      10 no_keys 0 game_four = Some g' /\
    state g' = DYING /\ lives g' = (-1)%Z.
Proof.
  split.
  { apply (session_reachable rnd_four (ticks 86)); [reflexivity|].
    vm_compute. reflexivity. }
  split; [vm_compute; reflexivity|].
  split; [vm_compute; reflexivity|].
  split; [vm_compute; reflexivity|].
  eexists. split; [|split; [vm_compute; reflexivity|split; reflexivity]].
  apply (session_reachable rnd_four (ticks 87)); [reflexivity|].
  vm_compute. reflexivity.
Qed.

(** C3, on the code.  After [events_pair] the missile is, once moved, within
    80 of the rocks 0 and 1, both big.  The pass of [missiles_physics]
    removes rock 0, appends the rocks 5 and 6, and goes on at index 1 of the
    new list, which is rock 2: rock 1 is never looked at, and is still there
    after the pass, with 20 points scored, not 40. *)
Theorem rock_in_reach_survives :
  reachable rnd_pair sin_neg_radians_0 neg_cos_radians_0 image_size image_size
    game_pair /\
  rock_id <$> rocks game_pair = [0; 1; 2; 3]%nat /\
  in_reach game_pair = [true; true; false; false] /\
  exists g',
    missiles_physics rnd_pair sin_neg_radians_0 neg_cos_radians_0 10
      game_pair = Some g' /\
    rock_id <$> rocks g' = [1; 2; 3; 5; 6]%nat /\
    rock_size <$> rocks g' = [big; big; big; normal; normal] /\
    score g' = (score game_pair + 20)%Z.
Proof.
  split.
  { apply (session_reachable rnd_pair events_pair); [reflexivity|].
    vm_compute. reflexivity. }
  split; [vm_compute; reflexivity|].
  split; [vm_compute; reflexivity|].
  eexists. split; [vm_compute; reflexivity|].
  repeat split.
Qed.

(** * Placement and the invariants of a session *)

(** ** What [Rock.__init__] and [make_rock] give *)

(** [random.random()] is in [[0, 1)]. *)
Lemma random_range rnd n : (0 <= random rnd n)%Q /\ (random rnd n < 1)%Q.
Proof.
  unfold random. rewrite Qred_correct.
  pose proof (Z.mod_pos_bound (rnd n) (2 ^ 53) ltac:(lia)) as [H0 H1].
  unfold Qle, Qlt. cbn [Qnum Qden].
  split; [lia|].
  rewrite Z.mul_1_r, Z.mul_1_l. exact H1.
Qed.

Lemma new_rock_drifts_slowly rnd id pos size n :
  let r := Rock_init rnd id pos size n in
  rock_speed r = 4%Q /\
  (-1 < fst (rock_direction r))%Q /\ (fst (rock_direction r) < 1)%Q /\
  (-1 < snd (rock_direction r))%Q /\ (snd (rock_direction r) < 1)%Q.
Proof.
  cbn zeta. unfold Rock_init. cbn [rock_speed rock_direction fst snd].
  pose proof (random_range rnd (n + 1)) as [A1 A2].
  pose proof (random_range rnd (n + 3)) as [B1 B2].
  split; [reflexivity|].
  destruct (getrandbits1 rnd n), (getrandbits1 rnd (n + 2)); repeat split; lra.
Qed.


Lemma randint_range rnd lo hi n :
  (lo <= hi)%Z -> (lo <= randint rnd lo hi n <= hi)%Z.
Proof.
  intros H. unfold randint.
  pose proof (Z.mod_pos_bound (rnd n) (hi - lo + 1) ltac:(lia)). lia.
Qed.

Lemma distance2_centre (x y : Z) :
  (distance2 (point_of_Z x y) arena_centre ==
   inject_Z ((x - 400) * (x - 400) + (y - 300) * (y - 300)))%Q.
Proof.
  unfold distance2, point_of_Z, arena_centre, width, height.
  cbn [fst snd]. simpl Qpower.
  assert (inject_Z 800 / 2 == inject_Z 400)%Q as -> by reflexivity.
  assert (inject_Z 600 / 2 == inject_Z 300)%Q as -> by reflexivity.
  rewrite inject_Z_plus, !inject_Z_mult.
  unfold Z.sub. rewrite !inject_Z_plus, !inject_Z_opp. ring.
Qed.

Lemma window_inside_circle (x y : Z) :
  (0 <= x <= width)%Z -> (0 <= y <= height)%Z ->
  distance_gt_sqrt (point_of_Z x y) arena_centre arena_radius2 = false.
Proof.
  unfold width, height. intros Hx Hy.
  unfold distance_gt_sqrt. apply Qltb_ge.
  rewrite distance2_centre.
  assert (arena_radius2 == inject_Z 250000)%Q as -> by reflexivity.
  rewrite <- Zle_Qle. nia.
Qed.

Section Placement.
Context (rnd : nat -> Z).

Lemma make_rock_while_window n ship d : forall x y s x' y' s',
  (0 <= x <= width)%Z -> (0 <= y <= height)%Z ->
  make_rock_while rnd n ship d x y s = Some (x', y', s') ->
  (0 <= x' <= width)%Z /\ (0 <= y' <= height)%Z.
Proof.
  induction n as [|n IH]; intros x y s x' y' s' Hx Hy; cbn;
    destruct (distance_lt (point_of_Z x y) ship d);
    try discriminate; try (intros [= <- <- <-]; now split).
  apply IH; apply randint_range; unfold width, height; lia.
Qed.


Lemma make_rock_placed fuel size g g' :
  make_rock rnd fuel size g = Some g' ->
  exists r, rocks g' = rocks g ++ [r] /\
            rock_id r = next_id g /\ rock_size r = size /\
            placed (position (spaceship g)) (min_rock_distance g) r.
Proof.
  unfold make_rock.
  destruct (make_rock_while rnd fuel _ _ _ _ _) as [[[x y] s]|] eqn:E;
    [|discriminate].
  cbn. intros [= <-]. eexists. split; [reflexivity|].
  pose proof (make_rock_while_far _ _ _ _ _ _ _ _ _ _ E) as Hfar.
  apply make_rock_while_window in E as [Hx Hy];
    try (pose proof (randint_range rnd 200 (width - 200) (seed g));
         pose proof (randint_range rnd 200 (height - 200) (S (seed g)));
         unfold width, height in *; lia).
  pose proof (new_rock_drifts_slowly rnd (next_id g) (x, y) size s) as D.
  cbn zeta in D.
  unfold placed. cbn [rock_id rock_size rock_position Rock_init fst snd].
  repeat split; try tauto.
  - exists x, y. tauto.
  - apply window_inside_circle; assumption.
Qed.

Lemma spawn_placed fuel l : forall g g',
  spawn rnd fuel l g = Some g' ->
  exists cs, rocks g' = rocks g ++ cs /\ rock_size <$> cs = l /\
    Forall (placed (position (spaceship g)) (min_rock_distance g)) cs.
Proof.
  induction l as [|s l IH]; intros g g'; cbn.
  - intros [= <-]. exists []. now rewrite app_nil_r.
  - destruct (make_rock rnd fuel s g) as [g1|] eqn:E; [|discriminate].
    cbn. intros H. apply IH in H as (cs & Hcs & Hsz & Hall).
    pose proof (make_rock_frame _ _ _ _ _ E) as (_ & Hd & Hs & _).
    apply make_rock_placed in E as (r & Hr & _ & Hsize & Hp).
    exists (r :: cs). rewrite Hcs, Hr, <- app_assoc. cbn.
    rewrite Hsize, Hsz. repeat split.
    constructor; [exact Hp|]. now rewrite <- Hd, <- Hs.
Qed.

Lemma make_rocks_spawn fuel k : forall g,
  make_rocks rnd fuel k g = spawn rnd fuel (replicate k big) g.
Proof.
  induction k as [|k IH]; intros g; cbn; [reflexivity|].
  destruct (make_rock rnd fuel big g); cbn; [apply IH|reflexivity].
Qed.

Lemma make_rocks_placed fuel k g g' :
  rocks g = [] ->
  make_rocks rnd fuel k g = Some g' ->
  same_but_rocks g g' /\ length (rocks g') = k /\
  Forall (fun r => rock_size r = big /\
                   placed (position (spaceship g)) (min_rock_distance g) r)
    (rocks g').
Proof.
  intros Hnil H. pose proof (make_rocks_inv _ _ _ _ _ H) as [F L].
  rewrite make_rocks_spawn in H.
  apply spawn_placed in H as (cs & Hcs & Hsz & Hall).
  rewrite Hnil in *. cbn in Hcs, L. split; [exact F|]. split; [exact L|].
  rewrite Hcs. apply Forall_forall. intros r Hr. split.
  - assert (rock_size r ∈ rock_size <$> cs) as Hin
      by (apply list_elem_of_fmap; eauto).
    rewrite Hsz in Hin. apply elem_of_replicate in Hin. tauto.
  - rewrite Forall_forall in Hall. now apply Hall.
Qed.

Lemma make_rocks_total k g :
  eventually_far rnd (position (spaceship g)) (min_rock_distance g) ->
  exists n, forall fuel, (n <= fuel)%nat ->
    is_Some (make_rocks rnd fuel k g).
Proof.
  intros Hfar.
  destruct (spawn_total rnd (replicate k big) g Hfar) as (n & g' & H).
  exists n. intros fuel Hle. rewrite make_rocks_spawn, (H fuel Hle). eauto.
Qed.

Lemma do_init_spec fuel g g' :
  do_init rnd fuel g = Some g' ->
  state g' = PLAYING /\ lives g' = 3%Z /\ score g' = 0%Z /\
  counter g' = 0%Z /\ min_rock_distance g' = 350%Q /\
  spaceship g' = Spaceship_init (400, 300)%Z /\ missiles g' = [] /\
  length (rocks g') = 4%nat /\
  Forall (fun r => rock_size r = big /\
                   placed (point_of_Z 400 300) 350 r) (rocks g').
Proof.
  unfold do_init.
  destruct (make_rocks rnd fuel 4 _) as [g1|] eqn:E; [|discriminate].
  cbn. intros [= <-].
  apply make_rocks_placed in E as (F & L & Hall); [|reflexivity].
  unfold same_but_rocks in F. cbn in *.
  destruct F as (F1 & F2 & F3 & F4 & _).
  repeat split; assumption.
Qed.

Lemma do_init_total g :
  eventually_far rnd (point_of_Z 400 300) 350 ->
  exists n, forall fuel, (n <= fuel)%nat -> is_Some (do_init rnd fuel g).
Proof.
  intros Hfar.
  destruct (make_rocks_total 4
              (start (set_min_rock_distance 350 (set_rocks [] g))) Hfar)
    as [n H].
  exists n. intros fuel Hle. unfold do_init.
  destruct (H fuel Hle) as [g1 ->]. cbn. eauto.
Qed.

End Placement.



Section StepsOfTick.
Context (rnd : nat -> Z) (sin_neg_radians neg_cos_radians : Z -> Q).
Context (image_width image_height : Q).

#[local] Abbreviation steps :=
  (rtc (tick_step rnd sin_neg_radians neg_cos_radians
          image_width image_height)).

Lemma spawn_steps fuel l : forall g g',
  spawn rnd fuel l g = Some g' -> steps g g'.
Proof.
  induction l as [|s l IH]; intros g g'; cbn.
  - intros [= <-]. reflexivity.
  - destruct (make_rock rnd fuel s g) as [g1|] eqn:E; [|discriminate].
    cbn. intros H. eapply rtc_l; [|apply IH, H].
    eapply step_make_rock, E.
Qed.

Lemma missile_vs_rock_steps fuel m rock g g' :
  missile_vs_rock rnd fuel m rock g = Some g' -> steps g g'.
Proof.
  rewrite missile_vs_rock_eq. destruct (hits m rock).
  - destruct (spawn rnd fuel _ _) as [g1|] eqn:E; [|discriminate].
    cbn. intros [= <-].
    eapply rtc_l; [apply step_remove_hit|].
    eapply rtc_r; [eapply spawn_steps, E|]. apply step_score.
  - intros [= <-]. reflexivity.
Qed.

Lemma for_rock_vs_missile_steps fuel n m : forall j g g',
  for_rock_vs_missile rnd fuel n m j g = Some g' -> steps g g'.
Proof.
  induction n as [|n IH]; intros j g g'; cbn;
    destruct (rocks g !! j) as [rock|];
    try discriminate; try (intros [= <-]; reflexivity).
  destruct (missile_vs_rock rnd fuel m rock g) as [g1|] eqn:E;
    [|discriminate].
  cbn. intros H. etransitivity; [eapply missile_vs_rock_steps, E|].
  eapply IH, H.
Qed.

Lemma for_missile_steps fuel n : forall i g g',
  for_missile rnd sin_neg_radians neg_cos_radians fuel n i g = Some g' ->
  steps g g'.
Proof.
  induction n as [|n IH]; intros i g g'; cbn;
    destruct (active_missiles (spaceship g) !! i) as [m|] eqn:Hi;
    try discriminate; try (intros [= <-]; reflexivity).
  destruct (for_rock_vs_missile rnd fuel fuel _ 0 _) as [g1|] eqn:E;
    [|discriminate].
  cbn. intros H.
  eapply rtc_l; [eapply step_missile_move, Hi|].
  etransitivity; [eapply for_rock_vs_missile_steps, E|].
  eapply IH, H.
Qed.

Lemma missiles_physics_steps fuel g g' :
  missiles_physics rnd sin_neg_radians neg_cos_radians fuel g = Some g' ->
  steps g g'.
Proof.
  unfold missiles_physics. destruct (Nat.ltb _ _).
  - apply for_missile_steps.
  - intros [= <-]. reflexivity.
Qed.

Lemma rock_step_steps fuel i rock g g' :
  rocks g !! i = Some rock ->
  rock_step rnd fuel i rock g = Some g' -> steps g g'.
Proof.
  intros Hi. rewrite rock_step_eq. cbn zeta.
  destruct (touches_ship _ _); [|destruct (leaves_arena _)]; intros H;
    (eapply rtc_l; [eapply step_rock_move, Hi|]).
  - injection H as <-. apply rtc_once, step_die.
  - eapply rtc_l; [apply (step_rock_remove _ _ _ _ _ (Rock_move rock))|].
    eapply rtc_once, step_make_rock, H.
  - injection H as <-. reflexivity.
Qed.

Lemma for_rock_steps fuel n : forall i g g',
  for_rock rnd fuel n i g = Some g' -> steps g g'.
Proof.
  induction n as [|n IH]; intros i g g'; cbn;
    destruct (rocks g !! i) as [rock|] eqn:Hi;
    try discriminate; try (intros [= <-]; reflexivity).
  destruct (rock_step rnd fuel i rock g) as [g1|] eqn:E; [|discriminate].
  cbn. intros H. etransitivity; [eapply rock_step_steps; eauto|].
  eapply IH, H.
Qed.

Lemma rocks_physics_steps fuel g g' :
  rocks_physics rnd fuel g = Some g' -> steps g g'.
Proof.
  unfold rocks_physics. destruct (Nat.ltb _ _).
  - apply for_rock_steps.
  - intros [= <-]. reflexivity.
Qed.

Lemma draw_steps fuel g g' :
  draw rnd fuel g = Some g' -> steps g g'.
Proof.
  destruct (decide (state g = PLAYING)) as [E|E].
  - rewrite draw_playing by assumption.
    destruct (Z.eqb _ _); [destruct (Nat.ltb _ _)|].
    + destruct (make_rock rnd fuel big _) as [g1|] eqn:M; [|discriminate].
      cbn. intros [= <-].
      eapply rtc_l; [apply (step_counter _ _ _ _ _ (counter g + 1))|].
      eapply rtc_l; [eapply step_make_rock, M|].
      apply rtc_once, step_counter.
    + intros [= <-]. apply rtc_once, step_counter.
    + intros [= <-]. apply rtc_once, step_counter.
  - rewrite draw_not_playing by assumption. intros [= <-]. reflexivity.
Qed.

Lemma refresh_steps fuel keys now g g' :
  refresh rnd sin_neg_radians neg_cos_radians image_width image_height
    fuel keys now g = Some g' ->
  steps g g'.
Proof.
  unfold refresh. intros H.
  eapply rtc_l; [apply (step_fire_check _ _ _ _ _ keys now)|].
  set (g0 := fire_check _ _ _ _ keys now g) in *.
  revert H.
  destruct (decide (state g0 = PLAYING)) as [E|E].
  - unfold playing_tick. cbn zeta.
    rewrite missiles_guard.
    destruct (missiles_physics _ _ _ _ _) as [g1|] eqn:M; [|discriminate].
    cbn [mbind option_bind]. rewrite rocks_guard.
    destruct (rocks_physics _ _ _) as [g2|] eqn:R; [|discriminate].
    cbn [mbind option_bind]. intros D.
    eapply rtc_l; [apply (step_steer _ _ _ _ _ keys)|].
    etransitivity; [eapply missiles_physics_steps, M|].
    etransitivity; [eapply rocks_physics_steps, R|].
    eapply draw_steps, D.
  - cbn [mbind option_bind]. apply draw_steps.
Qed.

End StepsOfTick.




Lemma NoDup_snoc_fresh (ids : list nat) n :
  NoDup ids -> Forall (fun x => (x < n)%nat) ids -> NoDup (ids ++ [n]).
Proof.
  intros Hnd Hlt. apply NoDup_app. split; [exact Hnd|].
  split; [|apply NoDup_singleton].
  intros x Hx Hn. apply list_elem_of_singleton in Hn. subst x.
  rewrite Forall_forall in Hlt. specialize (Hlt _ Hx). lia.
Qed.

Lemma rock_ok_ids n (l : list Rock) :
  Forall (rock_ok n) l -> Forall (fun x => (x < n)%nat) (rock_id <$> l).
Proof.
  intros H. apply Forall_fmap. eapply Forall_impl; [exact H|].
  intros r Hr. apply Hr.
Qed.

Lemma missile_ok_ids n (l : list Missile) :
  Forall (missile_ok n) l ->
  Forall (fun x => (x < n)%nat) (missile_id <$> l).
Proof.
  intros H. apply Forall_fmap. eapply Forall_impl; [exact H|].
  intros r Hr. apply Hr.
Qed.

Lemma rock_ok_mono n n' (l : list Rock) :
  (n <= n')%nat -> Forall (rock_ok n) l -> Forall (rock_ok n') l.
Proof.
  intros Hle H. eapply Forall_impl; [exact H|].
  unfold rock_ok. intros r (? & ?). split; [lia|assumption].
Qed.

Lemma missile_ok_mono n n' (l : list Missile) :
  (n <= n')%nat -> Forall (missile_ok n) l -> Forall (missile_ok n') l.
Proof.
  intros Hle H. eapply Forall_impl; [exact H|].
  unfold missile_ok. intros r (? & ?). split; [lia|assumption].
Qed.

Lemma remove_rock_sublist r (l : list Rock) : sublist (remove_rock r l) l.
Proof.
  induction l as [|x l IH]; cbn; [constructor|].
  destruct (Nat.eqb _ _); [now apply sublist_cons_r; left|].
  now constructor.
Qed.

Lemma remove_missile_sublist m (l : list Missile) :
  sublist (remove_missile m l) l.
Proof.
  induction l as [|x l IH]; cbn; [constructor|].
  destruct (Nat.eqb _ _); [now apply sublist_cons_r; left|].
  now constructor.
Qed.

Lemma Forall_sublist {A} (P : A -> Prop) (l' l : list A) :
  sublist l' l -> Forall P l -> Forall P l'.
Proof.
  induction 1 as [|x l1 l2 _ IH|x l1 l2 _ IH]; intros H.
  - constructor.
  - inversion H; subst. constructor; auto.
  - inversion H; subst. auto.
Qed.

Lemma objects_ok_lists (rs rs' : list Rock) (ms ms' : list Missile) n n' :
  sublist rs' rs -> sublist ms' ms -> (n <= n')%nat ->
  NoDup (rock_id <$> rs) /\ Forall (rock_ok n) rs /\
  NoDup (missile_id <$> ms) /\ Forall (missile_ok n) ms ->
  NoDup (rock_id <$> rs') /\ Forall (rock_ok n') rs' /\
  NoDup (missile_id <$> ms') /\ Forall (missile_ok n') ms'.
Proof.
  intros Hr Hm Hn (A & B & C & D). repeat split.
  - eapply sublist_NoDup; [exact A|]. now apply fmap_sublist.
  - eapply rock_ok_mono; [exact Hn|]. eapply Forall_sublist; eauto.
  - eapply sublist_NoDup; [exact C|]. now apply fmap_sublist.
  - eapply missile_ok_mono; [exact Hn|]. eapply Forall_sublist; eauto.
Qed.

Section ObjectSteps.
Context (rnd : nat -> Z) (sin_neg_radians neg_cos_radians : Z -> Q).
Context (image_width image_height : Q).

Lemma steer_objects keys g :
  let g' := steer sin_neg_radians neg_cos_radians keys g in
  rocks g' = rocks g /\
  active_missiles (spaceship g') = active_missiles (spaceship g) /\
  next_id g' = next_id g.
Proof.
  unfold steer, turn, physics.
  destruct (K_RIGHT keys || K_d keys), (K_LEFT keys || K_a keys),
    (K_UP keys || K_w keys); cbn;
    try destruct (decide (state g = PLAYING)); cbn; tauto.
Qed.

Lemma objects_ok_step g g' :
  tick_step rnd sin_neg_radians neg_cos_radians image_width image_height
    g g' ->
  objects_ok g -> objects_ok g'.
Proof.
  clear. unfold objects_ok.
  intros Hstep Hok. destruct Hstep as
    [keys now g | keys g | i m g Hi | m rock g | fuel size g g' Hm
    | size g | i rock g Hi | g | rock g | n g].
  - (* the fire check *)
    unfold fire_check.
    destruct (K_SPACE keys); [|exact Hok].
    destruct (Z.ltb _ _); [|exact Hok].
    destruct Hok as (A & B & C & D). cbn.
    split; [exact A|]. split; [eapply rock_ok_mono; [|exact B]; lia|].
    rewrite fmap_snoc. cbn. split.
    + apply NoDup_snoc_fresh; [exact C|]. now apply missile_ok_ids.
    + apply Forall_app. split; [eapply missile_ok_mono; [|exact D]; lia|].
      constructor; [|constructor]. split; cbn; [lia|reflexivity].
  - (* the keys *)
    destruct (steer_objects keys g) as (-> & -> & ->). exact Hok.
  - (* a missile moves *)
    destruct Hok as (A & B & C & D). cbn.
    split; [exact A|]. split; [exact B|].
    rewrite list_fmap_insert. cbn. split.
    + rewrite list_insert_id; [exact C|]. now rewrite list_lookup_fmap, Hi.
    + apply Forall_insert; [exact D|].
      rewrite Forall_forall in D.
      apply (D m). eapply list_elem_of_lookup_2, Hi.
  - (* a hit removes the rock and the missile *)
    unfold remove_hit. cbn.
    destruct (missile_in m (active_missiles (spaceship g))); cbn;
      eapply objects_ok_lists; try exact Hok;
      try apply remove_rock_sublist; try apply remove_missile_sublist;
      try reflexivity.
  - (* make_rock *)
    pose proof (make_rock_frame _ _ _ _ _ Hm)
      as (_ & _ & Hs & _ & _ & _ & _ & _ & _ & _ & _ & Hn).
    apply make_rock_placed in Hm as (r & Hr & Hid & _ & Hp).
    destruct Hok as (A & B & C & D). rewrite Hr, Hs, Hn.
    rewrite fmap_snoc, Hid. split.
    + apply NoDup_snoc_fresh; [exact A|]. now apply rock_ok_ids.
    + split; [|split; [exact C|eapply missile_ok_mono; [|exact D]; lia]].
      apply Forall_app. split; [eapply rock_ok_mono; [|exact B]; lia|].
      constructor; [|constructor].
      unfold placed in Hp. unfold rock_ok. rewrite Hid.
      split; [lia|]. tauto.
  - exact Hok.
  - (* a rock moves *)
    destruct Hok as (A & B & C & D). cbn.
    split; [|split; [|split; assumption]].
    + rewrite list_fmap_insert. cbn.
      rewrite list_insert_id; [exact A|]. now rewrite list_lookup_fmap, Hi.
    + apply Forall_insert; [exact B|].
      rewrite Forall_forall in B.
      apply (B rock). eapply list_elem_of_lookup_2, Hi.
  - exact Hok.
  - cbn. eapply objects_ok_lists; try exact Hok;
      try apply remove_rock_sublist; reflexivity.
  - exact Hok.
Qed.

End ObjectSteps.





Section Invariants.
Context (rnd : nat -> Z) (sin_neg_radians neg_cos_radians : Z -> Q).
Context (image_width image_height : Q).

#[local] Abbreviation tick_step' :=
  (tick_step rnd sin_neg_radians neg_cos_radians image_width image_height).
#[local] Abbreviation refresh' :=
  (refresh rnd sin_neg_radians neg_cos_radians image_width image_height).
#[local] Abbreviation handle_event' :=
  (handle_event rnd sin_neg_radians neg_cos_radians
     image_width image_height).
#[local] Abbreviation reachable' :=
  (reachable rnd sin_neg_radians neg_cos_radians image_width image_height).

Lemma steer_ship keys g :
  let g' := steer sin_neg_radians neg_cos_radians keys g in
  speed (spaceship g') = speed (spaceship g) /\
  missiles g' = missiles g /\
  ((0 <= angle (spaceship g) < 360)%Z ->
   (0 <= angle (spaceship g') < 360)%Z).
Proof.
  clear. unfold steer, turn, physics.
  assert (forall a, 0 <= a mod 360 < 360)%Z as Hmod
    by (intros a; apply Z.mod_pos_bound; lia).
  destruct (K_RIGHT keys || K_d keys), (K_LEFT keys || K_a keys),
    (K_UP keys || K_w keys); cbn;
    try destruct (decide (state g = PLAYING)); cbn;
    repeat split; try apply Hmod; tauto.
Qed.

(** What no step of a tick changes, and the little it does to the score,
    the heading, the state and the lives. *)
Lemma tick_step_frame g g' :
  tick_step' g g' ->
  min_rock_distance g' = min_rock_distance g /\
  speed (spaceship g') = speed (spaceship g) /\
  missiles g' = missiles g /\
  (score g <= score g')%Z /\
  ((0 <= angle (spaceship g) < 360)%Z ->
   (0 <= angle (spaceship g') < 360)%Z) /\
  ((state g' = state g /\ lives g' = lives g) \/
   (state g' = DYING /\ lives g' = (lives g - 1)%Z)).
Proof.
  clear. intros Hstep. destruct Hstep as
    [keys now g | keys g | i m g Hi | m rock g | fuel size g g' Hm
    | size g | i rock g Hi | g | rock g | n g].
  - pose proof (fire_check_frame sin_neg_radians neg_cos_radians
                  image_width image_height keys now g) as F.
    cbn zeta in F.
    destruct F as (_ & F2 & F3 & F4 & F5 & F6 & _ & _ & _ & _ & _ & F12
                   & _ & _ & F15).
    rewrite F2, F3, F4, F5, F6, F12, F15.
    repeat split; try lia; try tauto.
  - pose proof (steer_frame sin_neg_radians neg_cos_radians keys g) as F.
    pose proof (steer_ship keys g) as S. cbn zeta in F, S.
    destruct F as (_ & _ & F3 & F4 & F5 & F6 & _).
    destruct S as (S1 & S2 & S3).
    rewrite F3, F4, F5, F6, S1, S2. repeat split; try lia; tauto.
  - cbn. repeat split; try lia; tauto.
  - unfold remove_hit. cbn.
    destruct (missile_in m (active_missiles (spaceship g))); cbn;
      repeat split; try lia; tauto.
  - apply make_rock_frame in Hm
      as (_ & F1 & F2 & F3 & F4 & F5 & F6 & _).
    rewrite F1, F2, F3, F4, F5, F6. repeat split; try lia; tauto.
  - cbn. repeat split; try tauto. destruct size; cbn; lia.
  - cbn. repeat split; try lia; tauto.
  - cbn. repeat split; try lia; tauto.
  - cbn. repeat split; try lia; tauto.
  - cbn. repeat split; try lia; tauto.
Qed.

Lemma ship_ok_step g g' : tick_step' g g' -> ship_ok g -> ship_ok g'.
Proof.
  intros H (A & B & C).
  apply tick_step_frame in H as (F1 & F2 & _ & _ & F5 & _).
  unfold ship_ok. rewrite F1, F2. auto.
Qed.

Lemma lives_ok_step g g' : tick_step' g g' -> lives_ok g -> lives_ok g'.
Proof.
  intros H (A & B & C).
  apply tick_step_frame in H as (_ & _ & _ & _ & _ & [[F1 F2]|[F1 F2]]);
    unfold lives_ok; rewrite F1, F2.
  - auto.
  - split; [lia|]. split; [discriminate|]. intros [?|?]; discriminate.
Qed.

Lemma steps_invariants g g' :
  rtc tick_step' g g' ->
  (objects_ok g -> objects_ok g') /\ (ship_ok g -> ship_ok g') /\
  (lives_ok g -> lives_ok g') /\ (score g <= score g')%Z /\
  missiles g' = missiles g.
Proof.
  induction 1 as [g|g1 g2 g3 H _ (I1 & I2 & I3 & I4 & I5)].
  - split; [auto|]. split; [auto|]. split; [auto|].
    split; [lia|reflexivity].
  - pose proof (tick_step_frame _ _ H) as (_ & _ & F3 & F4 & _).
    split; [|split; [|split; [|split]]].
    + intros O. eapply I1, objects_ok_step; eauto.
    + intros O. eapply I2, ship_ok_step; eauto.
    + intros O. eapply I3, lives_ok_step; eauto.
    + lia.
    + congruence.
Qed.

Lemma refresh_counter_ok fuel keys now g g' :
  refresh' fuel keys now g = Some g' -> counter_ok g -> counter_ok g'.
Proof.
  unfold counter_ok. intros H [C1 C2].
  pose proof (fire_check_frame sin_neg_radians neg_cos_radians
                image_width image_height keys now g) as F.
  cbn zeta in F.
  destruct F as (F1 & _ & _ & F4 & _ & _ & F7 & _).
  destruct (decide (state g = PLAYING)) as [E|E].
  2:{ rewrite refresh_not_playing in H by assumption.
      injection H as <-. now rewrite F1, F7. }
  unfold refresh in H.
  set (g0 := fire_check _ _ _ _ keys now g) in *.
  destruct (decide (state g0 = PLAYING)) as [E0|E0]; [|congruence].
  destruct (playing_tick _ _ _ _ _ g0) as [g1|] eqn:T; [|discriminate].
  cbn [mbind option_bind] in H.
  apply playing_tick_inv in T as (_ & L & T).
  rewrite F1 in L.
  destruct T as [(T1 & T2 & _)|(T1 & T2 & _)].
  - rewrite draw_playing in H by congruence.
    destruct (Z.eqb_spec (counter g1 + 1) (30 * FPS)) as [Hc|Hc].
    + destruct (Nat.ltb_spec (length (rocks g1)) 10) as [Hl|Hl].
      * destruct (make_rock rnd fuel big _) as [g2|]; [|discriminate].
        cbn in H. injection H as <-. cbn. unfold FPS. lia.
      * injection H as <-. cbn. split; [lia|]. intros _. exact Hl.
    + injection H as <-. cbn. split; [lia|]. intros Hge.
      assert (30 * FPS <= counter g)%Z as Hg by lia.
      specialize (C2 Hg). lia.
  - rewrite draw_not_playing in H by congruence.
    injection H as <-. rewrite T2. unfold FPS. split; [lia|]. lia.
Qed.

End Invariants.

Section SessionInvariant.
Context (rnd : nat -> Z) (sin_neg_radians neg_cos_radians : Z -> Q).
Context (image_width image_height : Q).

#[local] Abbreviation refresh' :=
  (refresh rnd sin_neg_radians neg_cos_radians image_width image_height).
#[local] Abbreviation handle_event' :=
  (handle_event rnd sin_neg_radians neg_cos_radians
     image_width image_height).
#[local] Abbreviation reachable' :=
  (reachable rnd sin_neg_radians neg_cos_radians image_width image_height).

Lemma session_ok_refresh fuel keys now g g' :
  refresh' fuel keys now g = Some g' -> session_ok g -> session_ok g'.
Proof.
  intros H (O & S & L & C & Sc).
  pose proof (refresh_counter_ok _ _ _ _ _ _ _ _ _ _ H C) as C'.
  apply refresh_steps, steps_invariants in H as (I1 & I2 & I3 & I4 & _).
  unfold session_ok. split; [auto|]. split; [auto|]. split; [auto|].
  split; [exact C'|lia].
Qed.

Lemma objects_ok_make_rocks fuel k g g' :
  make_rocks rnd fuel k g = Some g' -> objects_ok g -> objects_ok g'.
Proof.
  rewrite make_rocks_spawn. intros H.
  apply (spawn_steps rnd sin_neg_radians neg_cos_radians
           image_width image_height) in H.
  now apply steps_invariants in H.
Qed.

Lemma session_ok_do_init fuel g g' :
  do_init rnd fuel g = Some g' -> session_ok g'.
Proof.
  intros H. pose proof (do_init_spec _ _ _ _ H)
    as (D1 & D2 & D3 & D4 & D5 & D6 & _ & D8 & _).
  unfold do_init in H.
  destruct (make_rocks rnd fuel 4 _) as [g1|] eqn:E; [|discriminate].
  cbn [mbind option_bind] in H. injection H as <-.
  apply objects_ok_make_rocks in E.
  2:{ split; [constructor|]. split; [constructor|]. split; constructor. }
  split; [exact E|]. split; [|split; [|split]].
  - unfold ship_ok. rewrite D5, D6. cbn. split; [lia|]. now split.
  - unfold lives_ok. rewrite D1, D2.
    split; [lia|]. split; [lia|]. intros [?|?]; discriminate.
  - unfold counter_ok. rewrite D4. unfold FPS. split; lia.
  - rewrite D3. lia.
Qed.

Lemma session_ok_init fuel now g :
  MyGame_init rnd fuel now = Some g -> session_ok g.
Proof.
  unfold MyGame_init.
  destruct (do_init rnd fuel _) as [g1|] eqn:E; [|discriminate].
  cbn. intros [= <-]. apply session_ok_do_init in E. exact E.
Qed.

Lemma session_ok_event fuel e g g' :
  timers_ok g -> deliverable e g -> session_ok g ->
  handle_event' fuel e g = Some g' -> session_ok g'.
Proof.
  intros [J1 J2] Hd Hok.
  destruct e; cbn [handle_event lives set_start_timer].
  - now intros [= <-].
  - intros H. eapply session_ok_refresh; eauto.
  - cbn in Hd. destruct (J1 Hd) as [Hs Hc].
    destruct Hok as (O & (S1 & S2 & S3) & (L1 & L2 & L3) & (C1 & C2) & Sc).
    destruct (Z.ltb_spec (lives g) 1) as [Hl|Hl].
    + intros [= <-].
      split; [exact O|]. split; [exact (conj S1 (conj S2 S3))|].
      split; [|split; [exact (conj C1 C2)|exact Sc]].
      split; [exact L1|]. split; [discriminate|]. intros _. exact Hl.
    + destruct (make_rocks rnd fuel 4 _) as [g1|] eqn:E; [|discriminate].
      cbn [mbind option_bind]. intros [= <-].
      pose proof (make_rocks_inv _ _ _ _ _ E) as (F & L).
      apply objects_ok_make_rocks in E.
      2:{ destruct O as (_ & _ & O3 & O4).
          split; [constructor|]. split; [constructor|].
          split; [exact O3|exact O4]. }
      unfold same_but_rocks in F. cbn in F, L.
      destruct F as (F1 & _ & _ & _ & F5 & F6 & F7 & _).
      destruct E as (E1 & E2 & _).
      split; [|split; [|split; [|split]]].
      * split; [exact E1|]. split; [exact E2|].
        split; constructor.
      * split; [cbn; lia|]. split; [reflexivity|].
        cbn. now rewrite F1.
      * unfold lives_ok. cbn. rewrite F5.
        split; [exact L1|]. split; [intros _; lia|].
        intros [?|?]; discriminate.
      * unfold counter_ok. cbn -[Z.mul]. rewrite F7, Hc.
        unfold FPS. split; lia.
      * cbn. now rewrite F6.
  - cbn in Hd. specialize (J2 Hd).
    destruct Hok as (O & S & (L1 & L2 & L3) & C & Sc).
    intros [= <-].
    split; [exact O|]. split; [exact S|].
    split; [|split; [exact C|exact Sc]].
    split; [exact L1|]. split; [discriminate|].
    intros _. apply L3. now left.
  - destruct (decide (state g = STARTING)).
    + apply session_ok_do_init.
    + now intros [= <-].
  - now intros [= <-].
Qed.

Lemma reachable_session_ok g : reachable' g -> session_ok g.
Proof.
  induction 1 as [fuel now g H | fuel e g g' Hg IH Hd H].
  - eapply session_ok_init, H.
  - eapply session_ok_event; eauto.
    eapply reachable_timers_ok, Hg.
Qed.

End SessionInvariant.

(** * More properties *)

Lemma missile_in_spec m (l : list Missile) :
  missile_in m l = true <-> missile_id m ∈ missile_id <$> l.
Proof.
  induction l as [|x l IH].
  - cbn. split; [discriminate|]. intros H. inversion H.
  - change (missile_in m (x :: l))
      with (Nat.eqb (missile_id x) (missile_id m) || missile_in m l).
    cbn [fmap list_fmap].
    rewrite orb_true_iff, IH, elem_of_cons, Nat.eqb_eq.
    split; intros [H|H]; auto.
Qed.

Lemma missile_in_remove m (l : list Missile) :
  NoDup (missile_id <$> l) -> missile_in m (remove_missile m l) = false.
Proof.
  induction l as [|x l IH]; [reflexivity|].
  cbn [remove_missile fmap list_fmap].
  intros Hnd. apply NoDup_cons in Hnd as [Hx Hnd].
  destruct (Nat.eqb (missile_id x) (missile_id m)) eqn:E.
  - apply Nat.eqb_eq in E. apply not_true_iff_false.
    rewrite missile_in_spec, <- E. exact Hx.
  - change (missile_in m (x :: remove_missile m l))
      with (Nat.eqb (missile_id x) (missile_id m) ||
            missile_in m (remove_missile m l)).
    rewrite E. cbn. now apply IH.
Qed.

Lemma remove_hit_guard m r1 r2 g :
  NoDup (missile_id <$> active_missiles (spaceship g)) ->
  let g1 := remove_hit m r1 g in
  missile_in m (active_missiles (spaceship g1)) = false /\
  active_missiles (spaceship (remove_hit m r2 g1)) =
    active_missiles (spaceship g1).
Proof.
  intros Hnd g1.
  assert (missile_in m (active_missiles (spaceship g1)) = false) as H.
  { subst g1. unfold remove_hit. cbn.
    destruct (missile_in m (active_missiles (spaceship g))) eqn:E; cbn.
    - now apply missile_in_remove.
    - exact E. }
  split; [exact H|].
  unfold remove_hit at 1. cbn. now rewrite H.
Qed.

Lemma length_remove_rock_found r (l : list Rock) : forall i x,
  l !! i = Some x -> rock_id x = rock_id r ->
  S (length (remove_rock r l)) = length l.
Proof.
  induction l as [|y l IH]; intros i x Hi Hid; [discriminate|].
  cbn. destruct (Nat.eqb (rock_id y) (rock_id r)) eqn:E; [reflexivity|].
  destruct i as [|i]; cbn in Hi.
  - injection Hi as ->. apply Nat.eqb_neq in E. contradiction.
  - cbn. f_equal. eapply IH; eauto.
Qed.

Section RocksPass.
Context (rnd : nat -> Z).

Lemma rock_step_length fuel i rock g g' :
  rocks g !! i = Some rock ->
  rock_step rnd fuel i rock g = Some g' ->
  length (rocks g') = length (rocks g).
Proof.
  intros Hi. rewrite rock_step_eq. cbn zeta.
  destruct (touches_ship _ _); [|destruct (leaves_arena _)].
  - intros [= <-]. cbn. apply length_insert.
  - intros H. apply make_rock_frame in H as ((r & Hr & _) & _).
    cbn in Hr. rewrite Hr, length_app. cbn.
    pose proof (length_remove_rock_found (Rock_move rock)
                  (<[i:=Rock_move rock]> (rocks g)) i (Rock_move rock)) as L.
    rewrite length_insert in L.
    rewrite <- L; [lia| |reflexivity].
    apply list_lookup_insert_eq. eapply lookup_lt_Some, Hi.
  - intros [= <-]. cbn. apply length_insert.
Qed.

Lemma for_rock_length fuel n : forall i g g',
  for_rock rnd fuel n i g = Some g' ->
  length (rocks g') = length (rocks g).
Proof.
  induction n as [|n IH]; intros i g g'; cbn;
    destruct (rocks g !! i) as [rock|] eqn:Hi;
    try discriminate; try (now intros [= <-]).
  destruct (rock_step rnd fuel i rock g) as [g1|] eqn:E; [|discriminate].
  cbn. intros H. apply IH in H. rewrite H.
  eapply rock_step_length; eauto.
Qed.

Lemma rock_step_total i rock g :
  eventually_far rnd (position (spaceship g)) (min_rock_distance g) ->
  exists n g', forall fuel, (n <= fuel)%nat ->
    rock_step rnd fuel i rock g = Some g'.
Proof.
  intros Hfar.
  destruct (touches_ship (Rock_move rock) g) eqn:T;
    [|destruct (leaves_arena (Rock_move rock)) eqn:L].
  - exists 0%nat. eexists. intros fuel _.
    rewrite rock_step_eq. cbn zeta. rewrite T. reflexivity.
  - destruct (Hfar (S (S (seed g)))) as [k Hk].
    set (g2 := set_rocks
                 (remove_rock (Rock_move rock)
                    (rocks (set_rocks (<[i:=Rock_move rock]> (rocks g)) g)))
                 (set_rocks (<[i:=Rock_move rock]> (rocks g)) g)).
    destruct (make_rock_total rnd (S k) big g2 k (Nat.lt_succ_diag_r k) Hk)
      as [g' Hg'].
    exists (S k), g'. intros fuel Hle.
    rewrite rock_step_eq. cbn zeta. rewrite T, L.
    eapply make_rock_mono; [exact Hle|exact Hg'].
  - exists 0%nat. eexists. intros fuel _.
    rewrite rock_step_eq. cbn zeta. rewrite T, L. reflexivity.
Qed.

Lemma for_rock_total m : forall i g,
  (length (rocks g) <= i + m)%nat ->
  eventually_far rnd (position (spaceship g)) (min_rock_distance g) ->
  exists n g', forall fuel k, (n <= fuel)%nat -> (m <= k)%nat ->
    for_rock rnd fuel k i g = Some g'.
Proof.
  induction m as [|m IH]; intros i g Hlen Hfar.
  - exists 0%nat, g. intros fuel k _ _.
    assert (rocks g !! i = None) as Hi by (apply lookup_ge_None_2; lia).
    destruct k; cbn; now rewrite Hi.
  - destruct (rocks g !! i) as [rock|] eqn:Hi.
    2:{ exists 0%nat, g. intros fuel k _ _. destruct k; cbn; now rewrite Hi. }
    destruct (rock_step_total i rock g Hfar) as (n1 & g1 & H1).
    pose proof (H1 n1 (Nat.le_refl _)) as E1.
    pose proof (rock_step_length _ _ _ _ _ Hi E1) as L1.
    apply rock_step_inv in E1 as (R1 & R2 & _).
    destruct (IH (S i) g1) as (n2 & g' & H2).
    { rewrite L1. lia. }
    { now rewrite R1, R2. }
    exists (Nat.max n1 n2), g'. intros fuel k Hf Hk.
    destruct k as [|k]; [lia|]. cbn. rewrite Hi.
    rewrite (H1 fuel) by lia. cbn. apply H2; lia.
Qed.

End RocksPass.

Section RunLoop.
Context (rnd : nat -> Z) (sin_neg_radians neg_cos_radians : Z -> Q).
Context (image_width image_height : Q) (fuel : nat).

#[local] Abbreviation run' :=
  (run rnd sin_neg_radians neg_cos_radians image_width image_height fuel).

Lemma run_QUIT events rest g :
  run' (events ++ QUIT :: rest) g = run' events g.
Proof.
  revert g. induction events as [|e events IH]; intros g; [reflexivity|].
  cbn [app run]. destruct e; try reflexivity;
    (destruct (handle_event _ _ _ _ _ _ _ g) as [g1|];
       [cbn [mbind option_bind]; apply IH|reflexivity]).
Qed.

Lemma steer_cancel keys g :
  K_RIGHT keys || K_d keys = true ->
  K_LEFT keys || K_a keys = true ->
  (0 <= angle (spaceship g) < 360)%Z ->
  angle (spaceship (steer sin_neg_radians neg_cos_radians keys g)) =
    angle (spaceship g).
Proof.
  clear. intros H1 H2 Ha. unfold steer, turn, physics. rewrite H1, H2.
  assert (((angle (spaceship g) + -10) mod 360 + 10) mod 360 =
          angle (spaceship g))%Z as E.
  { rewrite Zplus_mod_idemp_l.
    replace (angle (spaceship g) + -10 + 10)%Z with (angle (spaceship g))
      by lia.
    now apply Z.mod_small. }
  destruct (K_UP keys || K_w keys); cbn;
    try destruct (decide (state g = PLAYING)); cbn; exact E.
Qed.

End RunLoop.

(** * The properties, one by one *)

Section Extras.
Context (rnd : nat -> Z) (sin_neg_radians neg_cos_radians : Z -> Q).
Context (image_width image_height : Q).

(** X3.  [Rock.__init__] gives every rock the speed 4 and a direction whose
    two components are strictly between -1 and 1, whatever the random
    numbers are: a rock moves by less than 4 along each axis in a tick. *)
Theorem Rock_init_direction id pos size n :
  let r := Rock_init rnd id pos size n in
  rock_speed r = 4%Q /\
  (-1 < fst (rock_direction r))%Q /\ (fst (rock_direction r) < 1)%Q /\
  (-1 < snd (rock_direction r))%Q /\ (snd (rock_direction r) < 1)%Q.
Proof. apply new_rock_drifts_slowly. Qed.

(** X4.  The rock that [make_rock] appends has the next identity, which is
    then used up, and the size asked for; it lies in the window, [0..800]
    by [0..600], so that it is not outside the circle around the arena, and
    it is not closer to the ship than [min_rock_distance]. *)
Theorem make_rock_places_rock fuel size g g' :
  make_rock rnd fuel size g = Some g' ->
  exists r,
    rocks g' = rocks g ++ [r] /\ next_id g' = S (next_id g) /\
    rock_id r = next_id g /\ rock_size r = size /\
    in_window r /\ leaves_arena r = false /\
    distance_lt (rock_position r) (position (spaceship g))
      (min_rock_distance g) = false.
Proof.
  clear sin_neg_radians neg_cos_radians.
  intros H. pose proof (make_rock_frame _ _ _ _ _ H) as F.
  apply make_rock_placed in H as (r & Hr & Hid & Hs & Hp).
  exists r. unfold placed in Hp. tauto.
Qed.

(** X5.  [do_init], from any game: the state is PLAYING with 3 lives, the
    score and the counter 0, a new ship at the centre with no missile, and
    exactly 4 rocks, all big and placed 350 or more from the centre.  It
    returns as soon as the random stream proposes such places. *)
Theorem new_game g :
  (forall fuel g', do_init rnd fuel g = Some g' ->
     state g' = PLAYING /\ lives g' = 3%Z /\ score g' = 0%Z /\
     counter g' = 0%Z /\ min_rock_distance g' = 350%Q /\
     spaceship g' = Spaceship_init (400, 300)%Z /\ missiles g' = [] /\
     length (rocks g') = 4%nat /\
     Forall (fun r => rock_size r = big /\
                      placed (point_of_Z 400 300) 350 r) (rocks g')) /\
  (eventually_far rnd (point_of_Z 400 300) 350 ->
   exists n, forall fuel, (n <= fuel)%nat -> is_Some (do_init rnd fuel g)).
Proof.
  split; [intros fuel g'; apply do_init_spec|apply do_init_total].
Qed.

(** X6.  The START event with a life left: the state is PLAYING, the lives,
    the score and the counter are as they were, the timer is disarmed, the
    ship is a new one at the centre, and there are exactly 4 rocks, all big.
    The rocks are made before the ship: they are placed away from where the
    ship was, not from the centre. *)
Theorem respawn g :
  (1 <= lives g)%Z ->
  (forall fuel g',
     handle_event rnd sin_neg_radians neg_cos_radians
       image_width image_height fuel START g = Some g' ->
     state g' = PLAYING /\ lives g' = lives g /\ score g' = score g /\
     counter g' = counter g /\ start_timer g' = false /\
     spaceship g' = Spaceship_init (400, 300)%Z /\
     length (rocks g') = 4%nat /\
     Forall (fun r => rock_size r = big /\
                      placed (position (spaceship g))
                        (min_rock_distance g) r) (rocks g')) /\
  (eventually_far rnd (position (spaceship g)) (min_rock_distance g) ->
   exists n, forall fuel, (n <= fuel)%nat ->
     is_Some (handle_event rnd sin_neg_radians neg_cos_radians
                image_width image_height fuel START g)).
Proof.
  intros Hl. apply Z.ltb_ge in Hl. split.
  - intros fuel g'. cbn [handle_event lives set_start_timer]. rewrite Hl.
    destruct (make_rocks rnd fuel 4 _) as [g1|] eqn:E; [|discriminate].
    cbn [mbind option_bind]. intros [= <-].
    apply make_rocks_placed in E as (F & L & Hall); [|reflexivity].
    unfold same_but_rocks in F. cbn in F, Hall |- *.
    destruct F as (_ & _ & _ & _ & F5 & F6 & F7 & _ & F9 & _).
    repeat split; assumption.
  - intros Hfar.
    destruct (make_rocks_total rnd 4 (set_rocks [] (set_start_timer false g))
                Hfar) as [n H].
    exists n. intros fuel Hle.
    cbn [handle_event lives set_start_timer]. rewrite Hl.
    destruct (H fuel Hle) as [g1 ->]. cbn. eauto.
Qed.

(** X7.  With no life left the START event ends the game: the state is
    GAME_OVER, the RESTART timer armed, rocks, ship and score as they were,
    and a click changes nothing.  The RESTART event then makes the state
    STARTING, and only then a click starts a new game, with 3 lives, the
    score 0 and 4 rocks. *)
Theorem game_over_cycle fuel g :
  (lives g < 1)%Z ->
  exists g1,
    handle_event rnd sin_neg_radians neg_cos_radians
      image_width image_height fuel START g = Some g1 /\
    state g1 = GAME_OVER /\ restart_timer g1 = true /\
    start_timer g1 = false /\ rocks g1 = rocks g /\
    spaceship g1 = spaceship g /\ score g1 = score g /\
    handle_event rnd sin_neg_radians neg_cos_radians
      image_width image_height fuel MOUSEBUTTONDOWN g1 = Some g1 /\
    exists g2,
      handle_event rnd sin_neg_radians neg_cos_radians
        image_width image_height fuel RESTART g1 = Some g2 /\
      state g2 = STARTING /\ restart_timer g2 = false /\
      rocks g2 = rocks g /\ score g2 = score g /\ lives g2 = lives g /\
      forall g3,
        handle_event rnd sin_neg_radians neg_cos_radians
          image_width image_height fuel MOUSEBUTTONDOWN g2 = Some g3 ->
        state g3 = PLAYING /\ lives g3 = 3%Z /\ score g3 = 0%Z /\
        counter g3 = 0%Z /\ length (rocks g3) = 4%nat.
Proof.
  intros Hl. apply Z.ltb_lt in Hl.
  eexists. split.
  { cbn [handle_event lives set_start_timer]. rewrite Hl. reflexivity. }
  do 6 (split; [reflexivity|]). split; [reflexivity|].
  eexists. split; [reflexivity|].
  do 5 (split; [reflexivity|]).
  intros g3 H. cbn in H. apply do_init_spec in H. tauto.
Qed.

(** X8.  With a key of each direction pressed in the same tick the ship
    turns by -10 and then by +10 degrees: the heading is as it was. *)
Theorem both_turn_keys_cancel keys g :
  K_RIGHT keys || K_d keys = true ->
  K_LEFT keys || K_a keys = true ->
  (0 <= angle (spaceship g) < 360)%Z ->
  angle (spaceship (steer sin_neg_radians neg_cos_radians keys g)) =
    angle (spaceship g).
Proof. apply steer_cancel. Qed.

(** X9.  The guard of the removal of a missile: once a hit has removed the
    missile it is no longer found in the list, and a second hit of the same
    missile in the same pass leaves the list as it is. *)
Theorem missile_removed_once m r1 r2 g :
  NoDup (missile_id <$> active_missiles (spaceship g)) ->
  let g1 := remove_hit m r1 g in
  missile_in m (active_missiles (spaceship g1)) = false /\
  active_missiles (spaceship (remove_hit m r2 g1)) =
    active_missiles (spaceship g1).
Proof. apply remove_hit_guard. Qed.

(** X10.  A pass of [rocks_physics] keeps the number of rocks: every rock
    that leaves the arena is replaced by one rock.  It changes neither the
    ship nor the score. *)
Theorem rocks_physics_keeps_count fuel g g' :
  rocks_physics rnd fuel g = Some g' ->
  length (rocks g') = length (rocks g) /\
  spaceship g' = spaceship g /\ score g' = score g.
Proof.
  intros H. pose proof (rocks_physics_inv _ _ _ _ H) as (R1 & _ & _ & R4 & _).
  split; [|now split].
  unfold rocks_physics in H. destruct (Nat.ltb _ _).
  - eapply for_rock_length, H.
  - now injection H as <-.
Qed.

(** X11.  The loop of [rocks_physics] runs over the list it changes, and
    still ends: with a random stream that keeps proposing places far from
    the ship, the pass returns for every fuel from some number on. *)
Theorem rocks_physics_terminates g :
  eventually_far rnd (position (spaceship g)) (min_rock_distance g) ->
  exists n, forall fuel, (n <= fuel)%nat ->
    is_Some (rocks_physics rnd fuel g).
Proof.
  intros Hfar.
  destruct (for_rock_total rnd (length (rocks g)) 0 g (Nat.le_refl _) Hfar)
    as (n & g' & H).
  exists (Nat.max n (length (rocks g))). intros fuel Hle.
  unfold rocks_physics. destruct (Nat.ltb _ _); [|eauto].
  rewrite (H fuel fuel); [eauto|lia|lia].
Qed.

(** X12.  [run] ends at the first QUIT: the events after it are not
    handled. *)
Theorem run_stops_at_QUIT fuel events rest g :
  run rnd sin_neg_radians neg_cos_radians image_width image_height fuel
    (events ++ QUIT :: rest) g =
  run rnd sin_neg_radians neg_cos_radians image_width image_height fuel
    events g.
Proof. apply run_QUIT. Qed.

(** X14.  In every state of a session the heading of the ship is in
    [0, 360). *)
Theorem heading_in_range g :
  reachable rnd sin_neg_radians neg_cos_radians image_width image_height g ->
  (0 <= angle (spaceship g) < 360)%Z.
Proof. intros H. apply reachable_session_ok in H. apply H. Qed.

(** X15.  In every state of a session [min_rock_distance] is 350 and the
    speed of the ship is 4: nothing in the code changes them. *)
Theorem min_rock_distance_constant g :
  reachable rnd sin_neg_radians neg_cos_radians image_width image_height g ->
  min_rock_distance g = 350%Q /\ speed (spaceship g) = 4%Q.
Proof.
  intros H. apply reachable_session_ok in H as (_ & (_ & S2 & S3) & _).
  now split.
Qed.

(** X16.  In every state of a session there are 3 lives at most; at least
    one while the state is PLAYING; none once it is GAME_OVER or
    STARTING. *)
Theorem lives_bounds g :
  reachable rnd sin_neg_radians neg_cos_radians image_width image_height g ->
  (lives g <= 3)%Z /\
  (state g = PLAYING -> (1 <= lives g)%Z) /\
  (state g = GAME_OVER \/ state g = STARTING -> (lives g < 1)%Z).
Proof. intros H. apply reachable_session_ok in H. apply H. Qed.

(** X17.  In every state of a session the rocks are distinct objects and
    so are the missiles, all made before the next identity: [list.remove]
    removes the object it is given and no other. *)
Theorem identities_distinct g :
  reachable rnd sin_neg_radians neg_cos_radians image_width image_height g ->
  NoDup (rock_id <$> rocks g) /\
  NoDup (missile_id <$> active_missiles (spaceship g)) /\
  Forall (fun r => (rock_id r < next_id g)%nat) (rocks g) /\
  Forall (fun m => (missile_id m < next_id g)%nat)
    (active_missiles (spaceship g)).
Proof.
  intros H. apply reachable_session_ok in H as ((A & B & C & D) & _).
  split; [exact A|]. split; [exact C|]. split.
  - eapply Forall_impl; [exact B|]. intros r Hr. apply Hr.
  - eapply Forall_impl; [exact D|]. intros r Hr. apply Hr.
Qed.

(** X18.  In every state of a session every rock has the speed 4 and a
    direction whose components are strictly between -1 and 1, and every
    missile has the speed 15. *)
Theorem objects_keep_speed g :
  reachable rnd sin_neg_radians neg_cos_radians image_width image_height g ->
  Forall (fun r =>
            rock_speed r = 4%Q /\
            (-1 < fst (rock_direction r))%Q /\
            (fst (rock_direction r) < 1)%Q /\
            (-1 < snd (rock_direction r))%Q /\
            (snd (rock_direction r) < 1)%Q) (rocks g) /\
  Forall (fun m => missile_speed m = 15%Q) (active_missiles (spaceship g)).
Proof.
  intros H. apply reachable_session_ok in H as ((_ & B & _ & D) & _).
  split.
  - eapply Forall_impl; [exact B|]. intros r Hr. apply Hr.
  - eapply Forall_impl; [exact D|]. intros r Hr. apply Hr.
Qed.

(** X19.  In every state of a session the counter is not negative, and it
    is [30 * FPS] or more only while there are 10 rocks or more. *)
Theorem counter_past_limit_only_when_crowded g :
  reachable rnd sin_neg_radians neg_cos_radians image_width image_height g ->
  (0 <= counter g)%Z /\
  ((30 * FPS <= counter g)%Z -> (10 <= length (rocks g))%nat).
Proof. intros H. apply reachable_session_ok in H. apply H. Qed.

(** X20.  In every state of a session the START timer is armed only in the
    state DYING with the counter at 0, the RESTART timer only in the state
    GAME_OVER, and never both. *)
Theorem timers_armed_only_while_waiting g :
  reachable rnd sin_neg_radians neg_cos_radians image_width image_height g ->
  (start_timer g = true -> state g = DYING /\ counter g = 0%Z) /\
  (restart_timer g = true -> state g = GAME_OVER) /\
  (start_timer g = false \/ restart_timer g = false).
Proof.
  intros H. apply reachable_timers_ok in H as [J1 J2].
  split; [exact J1|]. split; [exact J2|].
  destruct (start_timer g); [|now left].
  destruct (restart_timer g); [|now right].
  destruct (J1 eq_refl). specialize (J2 eq_refl). congruence.
Qed.

(** X21.  In every state of a session the score is not negative, and no
    event lowers it, but the click that starts a new game, which sets it to
    0. *)
Theorem score_only_grows g :
  reachable rnd sin_neg_radians neg_cos_radians image_width image_height g ->
  (0 <= score g)%Z /\
  forall fuel e g',
    handle_event rnd sin_neg_radians neg_cos_radians
      image_width image_height fuel e g = Some g' ->
    (score g <= score g')%Z \/
    (e = MOUSEBUTTONDOWN /\ state g = STARTING /\ score g' = 0%Z).
Proof.
  intros H. apply reachable_session_ok in H as (_ & _ & _ & _ & Sc).
  split; [exact Sc|]. intros fuel e g'.
  destruct e; cbn [handle_event lives set_start_timer].
  - intros [= <-]. left. lia.
  - intros H. left.
    now apply refresh_steps, steps_invariants in H as (_ & _ & _ & I4 & _).
  - destruct (Z.ltb _ _).
    + intros [= <-]. left. cbn. lia.
    + destruct (make_rocks rnd fuel 4 _) as [g1|] eqn:E; [|discriminate].
      cbn [mbind option_bind]. intros [= <-]. left.
      apply make_rocks_inv in E as (F & _). unfold same_but_rocks in F.
      cbn in *. destruct F as (_ & _ & _ & _ & _ & F6 & _). lia.
  - intros [= <-]. left. cbn. lia.
  - destruct (decide (state g = STARTING)) as [E|E].
    + intros H. right. apply do_init_spec in H. tauto.
    + intros [= <-]. left. lia.
  - intros [= <-]. left. lia.
Qed.

End Extras.

Section StateMachine.
Context (rnd : nat -> Z) (sin_neg_radians neg_cos_radians : Z -> Q).
Context (image_width image_height : Q).

Lemma refresh_lives fuel keys now g g' :
  refresh rnd sin_neg_radians neg_cos_radians image_width image_height
    fuel keys now g = Some g' ->
  (state g' = state g /\ lives g' = lives g) \/
  (state g = PLAYING /\ state g' = DYING /\ (lives g' < lives g)%Z /\
   counter g' = 0%Z /\ start_timer g' = true).
Proof.
  pose proof (fire_check_frame sin_neg_radians neg_cos_radians
                image_width image_height keys now g) as F.
  cbn zeta in F. destruct F as (_ & _ & _ & F4 & F5 & _).
  destruct (decide (state g = PLAYING)) as [E|E].
  2:{ rewrite refresh_not_playing by assumption. intros [= <-]. now left. }
  unfold refresh.
  set (g0 := fire_check _ _ _ _ keys now g) in *.
  destruct (decide (state g0 = PLAYING)) as [E0|E0]; [|congruence].
  destruct (playing_tick _ _ _ _ _ g0) as [g1|] eqn:T; [|discriminate].
  cbn [mbind option_bind]. intros D.
  apply playing_tick_inv in T as (_ & _ & T).
  destruct T as [(T1 & _ & _ & T4)|(T1 & T2 & T3 & T4)].
  - apply draw_inv in D as (_ & D2 & D3 & _). left. split; congruence.
  - apply draw_inv in D as (_ & _ & _ & _ & _ & _ & _ & D8).
    rewrite D8 by congruence. right. repeat split; try assumption. lia.
Qed.

Lemma event_rocks_count fuel e g g' :
  (4 <= length (rocks g))%nat ->
  handle_event rnd sin_neg_radians neg_cos_radians image_width image_height
    fuel e g = Some g' ->
  (4 <= length (rocks g'))%nat.
Proof.
  intros H4. destruct e; cbn [handle_event lives set_start_timer].
  - now intros [= <-].
  - intros H. apply refresh_inv in H as (_ & L & _). lia.
  - destruct (Z.ltb _ _).
    + now intros [= <-].
    + destruct (make_rocks rnd fuel 4 _) as [g1|] eqn:E; [|discriminate].
      cbn [mbind option_bind]. intros [= <-].
      apply make_rocks_inv in E as (_ & L). cbn in *. lia.
  - now intros [= <-].
  - destruct (decide (state g = STARTING)).
    + intros H. apply do_init_spec in H. lia.
    + now intros [= <-].
  - now intros [= <-].
Qed.

Lemma reachable_rocks_count g :
  reachable rnd sin_neg_radians neg_cos_radians image_width image_height g ->
  (4 <= length (rocks g))%nat.
Proof.
  induction 1 as [fuel now g H | fuel e g g' Hg IH Hd H].
  - unfold MyGame_init in H.
    destruct (do_init rnd fuel _) as [g1|] eqn:E; [|discriminate].
    cbn in H. injection H as <-. apply do_init_spec in E. cbn. lia.
  - eapply event_rocks_count; eauto.
Qed.

Lemma event_state fuel e g g' :
  timers_ok g -> deliverable e g ->
  handle_event rnd sin_neg_radians neg_cos_radians image_width image_height
    fuel e g = Some g' ->
  state g' = state g \/
  (is_REFRESH e = true /\ state g = PLAYING /\ state g' = DYING) \/
  (e = START /\ state g = DYING /\
   ((1 <= lives g)%Z /\ state g' = PLAYING \/
    (lives g < 1)%Z /\ state g' = GAME_OVER)) \/
  (e = RESTART /\ state g = GAME_OVER /\ state g' = STARTING) \/
  (e = MOUSEBUTTONDOWN /\ state g = STARTING /\ state g' = PLAYING).
Proof.
  intros [J1 J2] Hd. destruct e; cbn [handle_event lives set_start_timer].
  - intros [= <-]. now left.
  - intros H. apply refresh_lives in H as [[H _]|(H1 & H2 & _)].
    + now left.
    + right. left. now repeat split.
  - cbn in Hd. destruct (J1 Hd) as [Hs _]. intros H.
    right. right. left. split; [reflexivity|]. split; [exact Hs|].
    destruct (Z.ltb_spec (lives g) 1) as [Hl|Hl].
    + injection H as <-. right. now split.
    + destruct (make_rocks rnd fuel 4 _) as [g1|]; [|discriminate].
      cbn in H. injection H as <-. left. now split.
  - cbn in Hd. specialize (J2 Hd). intros [= <-].
    right. right. right. left. now repeat split.
  - destruct (decide (state g = STARTING)) as [E|E].
    + intros H. apply do_init_spec in H.
      right. right. right. right. tauto.
    + intros [= <-]. now left.
  - intros [= <-]. now left.
Qed.

(** X22.  In every state of a session there are 4 rocks or more. *)
Theorem never_fewer_than_four_rocks g :
  reachable rnd sin_neg_radians neg_cos_radians image_width image_height g ->
  (4 <= length (rocks g))%nat.
Proof. apply reachable_rocks_count. Qed.

(** X23.  A REFRESH event leaves the state and the lives as they were, or
    goes from PLAYING to DYING with fewer lives, the counter at 0 and the
    START timer armed. *)
Theorem lives_change_only_by_death fuel keys now g g' :
  refresh rnd sin_neg_radians neg_cos_radians image_width image_height
    fuel keys now g = Some g' ->
  (state g' = state g /\ lives g' = lives g) \/
  (state g = PLAYING /\ state g' = DYING /\ (lives g' < lives g)%Z /\
   counter g' = 0%Z /\ start_timer g' = true).
Proof. apply refresh_lives. Qed.

(** X24.  The state machine of a session: an event leaves the state as it
    is, or a REFRESH goes from PLAYING to DYING, or START goes from DYING
    to PLAYING with a life left and to GAME_OVER with none, or RESTART
    goes from GAME_OVER to STARTING, or a click goes from STARTING to
    PLAYING. *)
Theorem state_machine_edges fuel e g g' :
  reachable rnd sin_neg_radians neg_cos_radians image_width image_height g ->
  deliverable e g ->
  handle_event rnd sin_neg_radians neg_cos_radians image_width image_height
    fuel e g = Some g' ->
  state g' = state g \/
  (is_REFRESH e = true /\ state g = PLAYING /\ state g' = DYING) \/
  (e = START /\ state g = DYING /\
   ((1 <= lives g)%Z /\ state g' = PLAYING \/
    (lives g < 1)%Z /\ state g' = GAME_OVER)) \/
  (e = RESTART /\ state g = GAME_OVER /\ state g' = STARTING) \/
  (e = MOUSEBUTTONDOWN /\ state g = STARTING /\ state g' = PLAYING).
Proof.
  intros H. apply event_state. eapply reachable_timers_ok, H.
Qed.

End StateMachine.

(** * The counter and the missiles, tick by tick *)

(** ** The counter *)

Section TimedSpawn.
Context (rnd : nat -> Z) (sin_neg_radians neg_cos_radians : Z -> Q).
Context (image_width image_height : Q).



End TimedSpawn.

(** ** A session in which the missiles only get more *)











(** ** Missiles that stay *)




Section MissilesStay.
Context (rnd : nat -> Z) (sin_neg_radians neg_cos_radians : Z -> Q).
Context (image_width image_height : Q).

#[local] Abbreviation Missile_move' :=
  (Missile_move sin_neg_radians neg_cos_radians).

(** The rocks a pass can meet: the rocks of the game at its start, and the
    rocks it makes, which [make_rock] puts in the window. *)
#[local] Abbreviation met rs :=
  (fun r : Rock => r ∈ rs \/ in_window r).










End MissilesStay.

(** ** The properties at concrete games *)

#[local] Abbreviation handle_event_0 :=
  (handle_event (stream []) sin_neg_radians_0 neg_cos_radians_0
     image_size image_size 10).

Lemma make_rock_places_rock_witness :
  exists r,
    rocks game_one_more_rock = rocks game_leaving_rock ++ [r] /\
    next_id game_one_more_rock = S (next_id game_leaving_rock) /\
    rock_id r = next_id game_leaving_rock /\ rock_size r = big /\
    in_window r /\ leaves_arena r = false /\
    distance_lt (rock_position r) (position (spaceship game_leaving_rock))
      (min_rock_distance game_leaving_rock) = false.
Proof.
  apply (make_rock_places_rock (stream []) 10 big game_leaving_rock
           game_one_more_rock).
  vm_compute. reflexivity.
Defined.

Lemma respawn_witness :
  (forall fuel g',
     handle_event (stream []) sin_neg_radians_0 neg_cos_radians_0
       image_size image_size fuel START (die game_far_missile) = Some g' ->
     state g' = PLAYING /\ lives g' = lives (die game_far_missile) /\
     score g' = score (die game_far_missile) /\
     counter g' = counter (die game_far_missile) /\
     start_timer g' = false /\
     spaceship g' = Spaceship_init (400, 300)%Z /\
     length (rocks g') = 4%nat /\
     Forall (fun r => rock_size r = big /\
                      placed (position (spaceship (die game_far_missile)))
                        (min_rock_distance (die game_far_missile)) r)
       (rocks g')) /\
  (eventually_far (stream [])
     (position (spaceship (die game_far_missile)))
     (min_rock_distance (die game_far_missile)) ->
   exists n, forall fuel, (n <= fuel)%nat ->
     is_Some (handle_event (stream []) sin_neg_radians_0 neg_cos_radians_0
                image_size image_size fuel START (die game_far_missile))).
Proof.
  apply (respawn (stream []) sin_neg_radians_0 neg_cos_radians_0
           image_size image_size (die game_far_missile)).
  vm_compute. discriminate.
Defined.

Lemma game_over_cycle_witness :
  exists g1,
    handle_event_0 START (set_lives 0 (die game_far_missile)) = Some g1 /\
    state g1 = GAME_OVER /\ restart_timer g1 = true /\
    start_timer g1 = false /\
    rocks g1 = rocks (set_lives 0 (die game_far_missile)) /\
    spaceship g1 = spaceship (set_lives 0 (die game_far_missile)) /\
    score g1 = score (set_lives 0 (die game_far_missile)) /\
    handle_event_0 MOUSEBUTTONDOWN g1 = Some g1 /\
    exists g2,
      handle_event_0 RESTART g1 = Some g2 /\
      state g2 = STARTING /\ restart_timer g2 = false /\
      rocks g2 = rocks (set_lives 0 (die game_far_missile)) /\
      score g2 = score (set_lives 0 (die game_far_missile)) /\
      lives g2 = lives (set_lives 0 (die game_far_missile)) /\
      forall g3,
        handle_event_0 MOUSEBUTTONDOWN g2 = Some g3 ->
        state g3 = PLAYING /\ lives g3 = 3%Z /\ score g3 = 0%Z /\
        counter g3 = 0%Z /\ length (rocks g3) = 4%nat.
Proof.
  apply (game_over_cycle (stream []) sin_neg_radians_0 neg_cos_radians_0
           image_size image_size 10 (set_lives 0 (die game_far_missile))).
  reflexivity.
Defined.

Lemma both_turn_keys_cancel_witness :
  angle (spaceship (steer sin_neg_radians_0 neg_cos_radians_0
                      both_turn_keys game_leaving_rock)) =
    angle (spaceship game_leaving_rock).
Proof.
  apply (both_turn_keys_cancel sin_neg_radians_0 neg_cos_radians_0
           both_turn_keys game_leaving_rock).
  - reflexivity.
  - reflexivity.
  - vm_compute. split; [discriminate|reflexivity].
Defined.

Lemma missile_removed_once_witness :
  missile_in a_missile
    (active_missiles
       (spaceship (remove_hit a_missile a_small_rock game_small_rock)))
    = false /\
  active_missiles
    (spaceship (remove_hit a_missile a_leaving_rock
                  (remove_hit a_missile a_small_rock game_small_rock))) =
    active_missiles
      (spaceship (remove_hit a_missile a_small_rock game_small_rock)).
Proof.
  apply (missile_removed_once a_missile a_small_rock a_leaving_rock
           game_small_rock).
  apply NoDup_singleton.
Defined.

Lemma rocks_physics_keeps_count_witness :
  length (rocks game_leaving_rock_next) = length (rocks game_leaving_rock) /\
  spaceship game_leaving_rock_next = spaceship game_leaving_rock /\
  score game_leaving_rock_next = score game_leaving_rock.
Proof.
  apply (rocks_physics_keeps_count (stream []) 10 game_leaving_rock
           game_leaving_rock_next).
  vm_compute. reflexivity.
Defined.

Lemma rocks_physics_terminates_witness :
  exists n, forall fuel, (n <= fuel)%nat ->
    is_Some (rocks_physics (stream []) fuel game_leaving_rock).
Proof.
  apply (rocks_physics_terminates (stream []) game_leaving_rock).
  intros s. exists 0%nat. unfold far_sample, randint.
  assert (forall n, stream [] n = 0%Z) as Hs by (intros [|n]; reflexivity).
  rewrite !Hs. reflexivity.
Defined.

Lemma heading_in_range_witness :
  (0 <= angle (spaceship game_new) < 360)%Z.
Proof.
  apply (heading_in_range rnd_two sin_neg_radians_0 neg_cos_radians_0
           image_size image_size game_new).
  apply (reachable_init _ _ _ _ _ 10%nat 0%Z). vm_compute. reflexivity.
Defined.

Lemma min_rock_distance_constant_witness :
  min_rock_distance game_new = 350%Q /\ speed (spaceship game_new) = 4%Q.
Proof.
  apply (min_rock_distance_constant rnd_two sin_neg_radians_0
           neg_cos_radians_0 image_size image_size game_new).
  apply (reachable_init _ _ _ _ _ 10%nat 0%Z). vm_compute. reflexivity.
Defined.

Lemma lives_bounds_witness :
  (lives game_new <= 3)%Z /\
  (state game_new = PLAYING -> (1 <= lives game_new)%Z) /\
  (state game_new = GAME_OVER \/ state game_new = STARTING ->
   (lives game_new < 1)%Z).
Proof.
  apply (lives_bounds rnd_two sin_neg_radians_0 neg_cos_radians_0
           image_size image_size game_new).
  apply (reachable_init _ _ _ _ _ 10%nat 0%Z). vm_compute. reflexivity.
Defined.

Lemma identities_distinct_witness :
  NoDup (rock_id <$> rocks game_new) /\
  NoDup (missile_id <$> active_missiles (spaceship game_new)) /\
  Forall (fun r => (rock_id r < next_id game_new)%nat) (rocks game_new) /\
  Forall (fun m => (missile_id m < next_id game_new)%nat)
    (active_missiles (spaceship game_new)).
Proof.
  apply (identities_distinct rnd_two sin_neg_radians_0 neg_cos_radians_0
           image_size image_size game_new).
  apply (reachable_init _ _ _ _ _ 10%nat 0%Z). vm_compute. reflexivity.
Defined.

Lemma objects_keep_speed_witness :
  Forall (fun r =>
            rock_speed r = 4%Q /\
            (-1 < fst (rock_direction r))%Q /\
            (fst (rock_direction r) < 1)%Q /\
            (-1 < snd (rock_direction r))%Q /\
            (snd (rock_direction r) < 1)%Q) (rocks game_new) /\
  Forall (fun m => missile_speed m = 15%Q)
    (active_missiles (spaceship game_new)).
Proof.
  apply (objects_keep_speed rnd_two sin_neg_radians_0 neg_cos_radians_0
           image_size image_size game_new).
  apply (reachable_init _ _ _ _ _ 10%nat 0%Z). vm_compute. reflexivity.
Defined.

Lemma counter_past_limit_only_when_crowded_witness :
  (0 <= counter game_new)%Z /\
  ((30 * FPS <= counter game_new)%Z -> (10 <= length (rocks game_new))%nat).
Proof.
  apply (counter_past_limit_only_when_crowded rnd_two sin_neg_radians_0
           neg_cos_radians_0 image_size image_size game_new).
  apply (reachable_init _ _ _ _ _ 10%nat 0%Z). vm_compute. reflexivity.
Defined.

Lemma timers_armed_only_while_waiting_witness :
  (start_timer game_new = true ->
   state game_new = DYING /\ counter game_new = 0%Z) /\
  (restart_timer game_new = true -> state game_new = GAME_OVER) /\
  (start_timer game_new = false \/ restart_timer game_new = false).
Proof.
  apply (timers_armed_only_while_waiting rnd_two sin_neg_radians_0
           neg_cos_radians_0 image_size image_size game_new).
  apply (reachable_init _ _ _ _ _ 10%nat 0%Z). vm_compute. reflexivity.
Defined.

Lemma score_only_grows_witness :
  (0 <= score game_new)%Z /\
  forall fuel e g',
    handle_event rnd_two sin_neg_radians_0 neg_cos_radians_0
      image_size image_size fuel e game_new = Some g' ->
    (score game_new <= score g')%Z \/
    (e = MOUSEBUTTONDOWN /\ state game_new = STARTING /\ score g' = 0%Z).
Proof.
  apply (score_only_grows rnd_two sin_neg_radians_0 neg_cos_radians_0
           image_size image_size game_new).
  apply (reachable_init _ _ _ _ _ 10%nat 0%Z). vm_compute. reflexivity.
Defined.

Lemma never_fewer_than_four_rocks_witness :
  (4 <= length (rocks game_new))%nat.
Proof.
  apply (never_fewer_than_four_rocks rnd_two sin_neg_radians_0
           neg_cos_radians_0 image_size image_size game_new).
  apply (reachable_init _ _ _ _ _ 10%nat 0%Z). vm_compute. reflexivity.
Defined.

Lemma lives_change_only_by_death_witness :
  (state game_far_missile_next = state game_far_missile /\
   lives game_far_missile_next = lives game_far_missile) \/
  (state game_far_missile = PLAYING /\
   state game_far_missile_next = DYING /\
   (lives game_far_missile_next < lives game_far_missile)%Z /\
   counter game_far_missile_next = 0%Z /\
   start_timer game_far_missile_next = true).
Proof.
  apply (lives_change_only_by_death (stream []) sin_neg_radians_0
           neg_cos_radians_0 image_size image_size 10 no_keys 0
           game_far_missile game_far_missile_next).
  vm_compute. reflexivity.
Defined.

Lemma state_machine_edges_witness :
  state game_new_next = state game_new \/
  (is_REFRESH (REFRESH no_keys 0) = true /\ state game_new = PLAYING /\
   state game_new_next = DYING) \/
  (REFRESH no_keys 0 = START /\ state game_new = DYING /\
   ((1 <= lives game_new)%Z /\ state game_new_next = PLAYING \/
    (lives game_new < 1)%Z /\ state game_new_next = GAME_OVER)) \/
  (REFRESH no_keys 0 = RESTART /\ state game_new = GAME_OVER /\
   state game_new_next = STARTING) \/
  (REFRESH no_keys 0 = MOUSEBUTTONDOWN /\ state game_new = STARTING /\
   state game_new_next = PLAYING).
Proof.
  apply (state_machine_edges rnd_two sin_neg_radians_0 neg_cos_radians_0
           image_size image_size 10 (REFRESH no_keys 0) game_new
           game_new_next).
  - apply (reachable_init _ _ _ _ _ 10%nat 0%Z). vm_compute. reflexivity.
  - exact I.
  - vm_compute. reflexivity.
Defined.

(** ** C5: a tick in which the ship dies *)



(** ** C9: missiles and the respawn *)




